(** * Creational design patterns: builder with director, and factory

    A shallow embedding of the two TypeScript examples of the repository:

    - the builder example ([Pizza], [Sandwich], the [Cook] interface with its
      two implementations [PizzaMaker] and [SandwichMaker], and the director
      [KitchenManager]);
    - the factory example ([Character], [Mage], [Warrior] and
      [CharacterFactory]).

    Cooks and products are JavaScript objects: they are shared by reference
    between the client code, the director's [managedCooks] array and its
    [activeCook] field, and a product handed out by [getResult] is the very
    object the builder keeps writing to until [startNew].  The builder
    example is therefore modelled over an explicit store of objects, with
    references as indices into it. *)

From stdpp Require Import base option list strings pretty.
From Stdlib Require Import QArith.

Close Scope Q_scope.

Local Open Scope string_scope.
Local Open Scope list_scope.

(** ** The builder example *)

Module Builder.

(** *** Objects and the store *)

(** A reference to an object of the store. *)
Definition loc := nat.

(** [class Pizza]: the three fields are declared without an initialiser, so
    a freshly constructed pizza reads [undefined] ([None]) at each of them.
    The field [cheese] of the source is [pizza_cheese] here and
    [sandwich_cheese] in [Sandwich]; [cheese] itself names the field of
    [Order]. *)
Record Pizza := mkPizza {
  flour : option string;
  topping : option string;
  pizza_cheese : option string
}.

(** [class Sandwich], likewise. *)
Record Sandwich := mkSandwich {
  bread : option string;
  filling : option string;
  sandwich_cheese : option string
}.

(** The two classes that implement [Cook], as the values [instanceof] tests
    against.  No other class of the repository implements the interface. *)
Inductive CookType := PizzaMakerT | SandwichMakerT.

#[global] Instance CookType_eq_dec : EqDecision CookType.
Proof. solve_decision. Defined.

(** A cook object: its class, its [name] and its private [result], a
    reference to the product in progress ([result : Pizza] for a
    [PizzaMaker], [result : Sandwich] for a [SandwichMaker]). *)
Inductive Cook :=
| PizzaMaker (name : string) (result : loc)
| SandwichMaker (name : string) (result : loc).

Definition cook_type (ck : Cook) : CookType :=
  match ck with
  | PizzaMaker _ _ => PizzaMakerT
  | SandwichMaker _ _ => SandwichMakerT
  end.

(** A value of type [Sandwich | Pizza]: a reference to a pizza or to a
    sandwich. *)
Inductive Product :=
| PizzaRef (l : loc)
| SandwichRef (l : loc).

(** The store: one array of objects per class, and the lines written to the
    console so far (oldest first). *)
Record World := mkWorld {
  pizzas : list Pizza;
  sandwiches : list Sandwich;
  cooks : list Cook;
  console : list string
}.

Definition empty_world : World := mkWorld [] [] [] [].

(** *** Computations over the store *)

(** A call returns a value, throws an [Error] with a message, or goes
    [Wrong]: it follows a reference that is not in the store, which no
    JavaScript run does. *)
Inductive Outcome (A : Type) :=
| Return (a : A) (w : World)
| Throw (msg : string) (w : World)
| Wrong.
Arguments Return {A} a w.
Arguments Throw {A} msg w.
Arguments Wrong {A}.

Definition M (A : Type) := World -> Outcome A.

Definition ret {A} (a : A) : M A := fun w => Return a w.

Definition bind {A B} (m : M A) (k : A -> M B) : M B :=
  fun w =>
    match m w with
    | Return a w' => k a w'
    | Throw msg w' => Throw msg w'
    | Wrong => Wrong
    end.

Definition throw {A} (msg : string) : M A := fun w => Throw msg w.

Definition wrong {A} : M A := fun _ => Wrong.

#[global] Instance M_ret : MRet M := @ret.
#[global] Instance M_bind : MBind M := fun A B k m => bind m k.

(** [console.log(line)] *)
Definition console_log (line : string) : M unit :=
  fun w => Return tt (mkWorld (pizzas w) (sandwiches w) (cooks w) (console w ++ [line])).

(** [new Pizza()] *)
Definition new_Pizza : M loc :=
  fun w => Return (length (pizzas w))
    (mkWorld (pizzas w ++ [mkPizza None None None]) (sandwiches w) (cooks w) (console w)).

(** [new Sandwich()] *)
Definition new_Sandwich : M loc :=
  fun w => Return (length (sandwiches w))
    (mkWorld (pizzas w) (sandwiches w ++ [mkSandwich None None None]) (cooks w) (console w)).

(** Reading and updating the object behind a reference. *)
Definition get_cook (c : loc) : M Cook :=
  fun w => match cooks w !! c with Some ck => Return ck w | None => Wrong end.

Definition set_cook (c : loc) (ck : Cook) : M unit :=
  fun w =>
    match cooks w !! c with
    | Some _ => Return tt (mkWorld (pizzas w) (sandwiches w) (<[c := ck]> (cooks w)) (console w))
    | None => Wrong
    end.

Definition alloc_cook (ck : Cook) : M loc :=
  fun w => Return (length (cooks w))
    (mkWorld (pizzas w) (sandwiches w) (cooks w ++ [ck]) (console w)).

Definition update_pizza (r : loc) (f : Pizza -> Pizza) : M unit :=
  fun w =>
    match pizzas w !! r with
    | Some p => Return tt (mkWorld (<[r := f p]> (pizzas w)) (sandwiches w) (cooks w) (console w))
    | None => Wrong
    end.

Definition update_sandwich (r : loc) (f : Sandwich -> Sandwich) : M unit :=
  fun w =>
    match sandwiches w !! r with
    | Some s => Return tt (mkWorld (pizzas w) (<[r := f s]> (sandwiches w)) (cooks w) (console w))
    | None => Wrong
    end.

(** Field assignments [p.flour = v], [p.topping = v], ... *)
Definition set_flour (v : string) (p : Pizza) : Pizza :=
  mkPizza (Some v) (topping p) (pizza_cheese p).
Definition set_topping (v : string) (p : Pizza) : Pizza :=
  mkPizza (flour p) (Some v) (pizza_cheese p).
Definition set_pizza_cheese (v : string) (p : Pizza) : Pizza :=
  mkPizza (flour p) (topping p) (Some v).

Definition set_bread (v : string) (s : Sandwich) : Sandwich :=
  mkSandwich (Some v) (filling s) (sandwich_cheese s).
Definition set_filling (v : string) (s : Sandwich) : Sandwich :=
  mkSandwich (bread s) (Some v) (sandwich_cheese s).
Definition set_sandwich_cheese (v : string) (s : Sandwich) : Sandwich :=
  mkSandwich (bread s) (filling s) (Some v).

(** *** [PizzaMaker] *)

Module PizzaMaker.

Definition constructor (name : string) : M loc :=
  r ← new_Pizza;
  alloc_cook (PizzaMaker name r).

Definition prepareBase (name : string) (result : loc) (base : string) : M unit :=
  console_log (name +:+ " is preparing the pizza base! " +:+ base +:+ " flour will be used.");;
  update_pizza result (set_flour base).

Definition addMeat (name : string) (result : loc) (meat : string) : M unit :=
  console_log (name +:+ " is adding the pizza topping! " +:+ meat +:+ " will be used.");;
  update_pizza result (set_topping meat).

Definition addCheese (name : string) (result : loc) (cheese : string) : M unit :=
  console_log (name +:+ " is adding cheese to the pizza! " +:+ cheese +:+ " will be used.");;
  update_pizza result (set_pizza_cheese cheese).

Definition getResult (result : loc) : M Product :=
  console_log "Pizza's ready!";;
  ret (PizzaRef result).

Definition startNew (this : loc) (name : string) : M unit :=
  r ← new_Pizza;
  set_cook this (PizzaMaker name r).

End PizzaMaker.

(** *** [SandwichMaker] *)

Module SandwichMaker.

Definition constructor (name : string) : M loc :=
  r ← new_Sandwich;
  alloc_cook (SandwichMaker name r).

Definition prepareBase (name : string) (result : loc) (base : string) : M unit :=
  console_log (name +:+ " is preparing the sandwich bread! " +:+ base +:+ " bread will be used.");;
  update_sandwich result (set_bread base).

Definition addMeat (name : string) (result : loc) (meat : string) : M unit :=
  console_log (name +:+ " is adding filling the sandwich! " +:+ meat +:+ " will be used.");;
  update_sandwich result (set_filling meat).

Definition addCheese (name : string) (result : loc) (cheese : string) : M unit :=
  console_log (name +:+ " is adding cheese to the sandwich! " +:+ cheese +:+ " will be used.");;
  update_sandwich result (set_sandwich_cheese cheese).

Definition getResult (result : loc) : M Product :=
  console_log "Sandwich is ready!";;
  ret (SandwichRef result).

Definition startNew (this : loc) (name : string) : M unit :=
  r ← new_Sandwich;
  set_cook this (SandwichMaker name r).

End SandwichMaker.

(** *** The [Cook] interface: a method call on a reference dispatches on the
    class of the object behind it. *)

Definition prepareBase (c : loc) (base : string) : M unit :=
  ck ← get_cook c;
  match ck with
  | PizzaMaker name result => PizzaMaker.prepareBase name result base
  | SandwichMaker name result => SandwichMaker.prepareBase name result base
  end.

Definition addMeat (c : loc) (meat : string) : M unit :=
  ck ← get_cook c;
  match ck with
  | PizzaMaker name result => PizzaMaker.addMeat name result meat
  | SandwichMaker name result => SandwichMaker.addMeat name result meat
  end.

Definition addCheese (c : loc) (cheese : string) : M unit :=
  ck ← get_cook c;
  match ck with
  | PizzaMaker name result => PizzaMaker.addCheese name result cheese
  | SandwichMaker name result => SandwichMaker.addCheese name result cheese
  end.

Definition getResult (c : loc) : M Product :=
  ck ← get_cook c;
  match ck with
  | PizzaMaker _ result => PizzaMaker.getResult result
  | SandwichMaker _ result => SandwichMaker.getResult result
  end.

Definition startNew (c : loc) : M unit :=
  ck ← get_cook c;
  match ck with
  | PizzaMaker name _ => PizzaMaker.startNew c name
  | SandwichMaker name _ => SandwichMaker.startNew c name
  end.

(** [cook instanceof T] *)
Definition instanceof (c : loc) (T : CookType) : M bool :=
  ck ← get_cook c;
  ret (bool_decide (cook_type ck = T)).

(** [new T(name)] for a class [T] held in a variable. *)
Definition new_cook (T : CookType) (name : string) : M loc :=
  match T with
  | PizzaMakerT => PizzaMaker.constructor name
  | SandwichMakerT => SandwichMaker.constructor name
  end.

(** *** Building without a director *)

Definition createSandwichWithoutKitchenManager
    (sandwichMaker : loc) (bread filling cheese : string) : M Product :=
  prepareBase sandwichMaker bread;;
  addMeat sandwichMaker filling;;
  addCheese sandwichMaker cheese;;
  getResult sandwichMaker.

Definition createPizzaWithoutKitchenManager
    (pizzaMaker : loc) (flour topping cheese : string) : M Product :=
  prepareBase pizzaMaker flour;;
  addMeat pizzaMaker topping;;
  addCheese pizzaMaker cheese;;
  getResult pizzaMaker.

(** *** The director *)

(** [type Food = "pizza" | "sandwich"] *)
Inductive Food := pizza | sandwich.

#[global] Instance Food_eq_dec : EqDecision Food.
Proof. solve_decision. Defined.

Record Order := mkOrder {
  food : Food;
  base : string;
  meat : string;
  cheese : string
}.

(** A [KitchenManager] object.  [managedCooks] is the array of the rest
    parameter [...cooks], which is created by the call and reachable from
    this object only; the cooks in it are references. *)
Record KitchenManager := mkKitchenManager {
  name : string;
  managedCooks : list loc;
  activeCook : loc
}.

Module KitchenManager.

Definition constructor (name : string) (cooks : list loc) : M KitchenManager :=
  if bool_decide (length cooks = 0) then
    throw "A kitchen manager must have cooks!"
  else
    match cooks !! 0 with
    | Some c0 => ret (mkKitchenManager name cooks c0)
    | None => wrong
    end.

(** [(food === "pizza" && PizzaMaker) || SandwichMaker] *)
Definition RequiredCookType (food : Food) : CookType :=
  if bool_decide (food = pizza) then PizzaMakerT else SandwichMakerT.

(** [cooks.find((cook) => cook instanceof T)] *)
Fixpoint find_instanceof (T : CookType) (cooks : list loc) : M (option loc) :=
  match cooks with
  | [] => ret None
  | cook :: rest =>
      b ← instanceof cook T;
      if (b : bool) then ret (Some cook) else find_instanceof T rest
  end.

Definition findSuitableCook (this : KitchenManager) (food : Food) : M KitchenManager :=
  let T := RequiredCookType food in
  b ← instanceof (activeCook this) T;
  if negb (b : bool) then
    console_log "Changing currently active cook!";;
    oneOfOurCooks ← find_instanceof T (managedCooks this);
    match oneOfOurCooks with
    | None =>
        c ← new_cook T "George";
        ret (mkKitchenManager (name this) (managedCooks this ++ [c]) c)
    | Some c =>
        ret (mkKitchenManager (name this) (managedCooks this) c)
    end
  else ret this.

Definition fulfillOrder (this : KitchenManager) (o : Order) : M (KitchenManager * Product) :=
  this ← findSuitableCook this (food o);
  startNew (activeCook this);;
  prepareBase (activeCook this) (base o);;
  addMeat (activeCook this) (meat o);;
  addCheese (activeCook this) (cheese o);;
  p ← getResult (activeCook this);
  ret (this, p).

End KitchenManager.

(** The module-level script of the file, up to its last [fulfillOrder]. *)
Definition demo : M (Product * Product * Product * Product) :=
  pizzaMaker ← PizzaMaker.constructor "Anna";
  sandwichMaker ← SandwichMaker.constructor "Jeremy";
  pepperoniPizza ←
    createPizzaWithoutKitchenManager pizzaMaker "wheat" "pepperoni" "brick cheese";
  chickenMayoSandwich ←
    createSandwichWithoutKitchenManager sandwichMaker "italian" "chicken and mayo" "parmesan";
  kitchenManager ← KitchenManager.constructor "Melissa" [pizzaMaker; sandwichMaker];
  '(kitchenManager, groundBeefPizza) ← KitchenManager.fulfillOrder kitchenManager
          (mkOrder pizza "bread" "ground beef" "mozzarella");
  '(kitchenManager, pastramiSandwich) ← KitchenManager.fulfillOrder kitchenManager
          (mkOrder sandwich "whole grain" "pastrami" "cheddar");
  ret (pepperoniPizza, chickenMayoSandwich, groundBeefPizza, pastramiSandwich).

(** *** Stores, build sequences and reachable director states *)

(** Reading a product through its reference. *)
Inductive ProductValue :=
| APizza (p : Pizza)
| ASandwich (s : Sandwich).

Definition deref (w : World) (p : Product) : option ProductValue :=
  match p with
  | PizzaRef l => APizza <$> pizzas w !! l
  | SandwichRef l => ASandwich <$> sandwiches w !! l
  end.

(** The class of the object behind a cook reference. *)
Definition class_of (w : World) (c : loc) : option CookType :=
  cook_type <$> cooks w !! c.

Definition cook_name (ck : Cook) : string :=
  match ck with
  | PizzaMaker name _ => name
  | SandwichMaker name _ => name
  end.

(** What a JavaScript store always satisfies: the [result] of every cook is
    a live product of the class its type annotation says. *)
Definition cook_ok (w : World) (ck : Cook) : Prop :=
  match ck with
  | PizzaMaker _ result => result < length (pizzas w)
  | SandwichMaker _ result => result < length (sandwiches w)
  end.

Definition world_wf (w : World) : Prop := Forall (cook_ok w) (cooks w).

Definition valid_cook (w : World) (c : loc) : Prop := c < length (cooks w).

(** One build step of the [Cook] interface, with its argument. *)
Inductive BuildStep :=
| PrepareBase (v : string)
| AddMeat (v : string)
| AddCheese (v : string).

Definition run_step (c : loc) (s : BuildStep) : M unit :=
  match s with
  | PrepareBase v => prepareBase c v
  | AddMeat v => addMeat c v
  | AddCheese v => addCheese c v
  end.

Fixpoint run_steps (c : loc) (steps : list BuildStep) : M unit :=
  match steps with
  | [] => ret tt
  | s :: rest => run_step c s;; run_steps c rest
  end.

(** The last value a sequence of steps passes to [prepareBase], to
    [addMeat] and to [addCheese], if any. *)
Definition base_arg (s : BuildStep) : option string :=
  match s with PrepareBase v => Some v | _ => None end.
Definition meat_arg (s : BuildStep) : option string :=
  match s with AddMeat v => Some v | _ => None end.
Definition cheese_arg (s : BuildStep) : option string :=
  match s with AddCheese v => Some v | _ => None end.

Definition last_arg (arg : BuildStep -> option string) (steps : list BuildStep)
    : option string :=
  last (omap arg steps).

(** What client code that holds references to cooks can do with them,
    besides calling the director. *)
Inductive ClientCall :=
| CallNew (T : CookType) (name : string)
| CallStep (c : loc) (s : BuildStep)
| CallGetResult (c : loc)
| CallStartNew (c : loc).

Definition run_call (call : ClientCall) : M unit :=
  match call with
  | CallNew T name => new_cook T name;; ret tt
  | CallStep c s => run_step c s
  | CallGetResult c => getResult c;; ret tt
  | CallStartNew c => startNew c
  end.

(** The states of a director: those a successful construction over live
    cooks yields, and those that follow by [fulfillOrder] calls, between
    which the client may use the cooks directly. *)
Inductive reachable : World -> KitchenManager -> Prop :=
| reachable_new w0 name cooks this w :
    world_wf w0 ->
    Forall (valid_cook w0) cooks ->
    KitchenManager.constructor name cooks w0 = Return this w ->
    reachable w this
| reachable_fulfillOrder w this o this' p w' :
    reachable w this ->
    KitchenManager.fulfillOrder this o w = Return (this', p) w' ->
    reachable w' this'
| reachable_client w this call w' :
    reachable w this ->
    run_call call w = Return tt w' ->
    reachable w' this.

(** The calls a JavaScript client can make: on references to live cooks. *)
Definition call_ok (w : World) (call : ClientCall) : Prop :=
  match call with
  | CallNew _ _ => True
  | CallStep c _ | CallGetResult c | CallStartNew c => valid_cook w c
  end.

(** The store of the script once its two cooks are constructed, and the
    manager the script constructs over them. *)
Definition kitchen : World :=
  mkWorld [mkPizza None None None] [mkSandwich None None None]
    [PizzaMaker "Anna" 0; SandwichMaker "Jeremy" 0] [].

Definition melissa : KitchenManager := mkKitchenManager "Melissa" [0; 1] 0.

(** A store with a single cook, a pizza maker. *)
Definition pizzeria : World :=
  mkWorld [mkPizza None None None] [] [PizzaMaker "Anna" 0] [].

(** The invariant of the reachable states. *)
Definition km_wf (w : World) (this : KitchenManager) : Prop :=
  managedCooks this <> [] /\
  activeCook this ∈ managedCooks this /\
  Forall (valid_cook w) (managedCooks this).

(** *** Further notions about stores and directors *)

(** The reference a cook holds in its [result]. *)
Definition cook_result (ck : Cook) : Product :=
  match ck with
  | PizzaMaker _ result => PizzaRef result
  | SandwichMaker _ result => SandwichRef result
  end.

(** The class and the name of a cook, and those of all the cooks of a
    store, in the order of their construction. *)
Definition cook_id (ck : Cook) : CookType * string := (cook_type ck, cook_name ck).

Definition cook_ids (w : World) : list (CookType * string) := cook_id <$> cooks w.

(** A product on which build steps have run: each field holds the last
    value the steps passed for it, or else the value it had. *)
Definition written (steps : list BuildStep) (v : ProductValue) : ProductValue :=
  match v with
  | APizza p =>
      APizza (mkPizza (last_arg base_arg steps ∪ flour p)
                      (last_arg meat_arg steps ∪ topping p)
                      (last_arg cheese_arg steps ∪ pizza_cheese p))
  | ASandwich s =>
      ASandwich (mkSandwich (last_arg base_arg steps ∪ bread s)
                            (last_arg meat_arg steps ∪ filling s)
                            (last_arg cheese_arg steps ∪ sandwich_cheese s))
  end.

(** The product an order asks for. *)
Definition ordered (o : Order) : ProductValue :=
  match food o with
  | pizza => APizza (mkPizza (Some (base o)) (Some (meat o)) (Some (cheese o)))
  | sandwich => ASandwich (mkSandwich (Some (base o)) (Some (meat o)) (Some (cheese o)))
  end.

(** A series of orders to one director, each on the manager the previous
    one left. *)
Fixpoint fulfillOrders (this : KitchenManager) (orders : list Order)
    : M (KitchenManager * list Product) :=
  match orders with
  | [] => ret (this, [])
  | o :: rest =>
      r ← KitchenManager.fulfillOrder this o;
      rs ← fulfillOrders r.1 rest;
      ret (rs.1, r.2 :: rs.2)
  end.

(** Whether a director manages a cook of a class. *)
Definition manages (w : World) (this : KitchenManager) (T : CookType) : bool :=
  existsb (fun c => bool_decide (class_of w c = Some T)) (managedCooks this).

(** The number of classes of which a director manages no cook. *)
Definition missing (w : World) (this : KitchenManager) : nat :=
  (if manages w this PizzaMakerT then 0 else 1) +
  (if manages w this SandwichMakerT then 0 else 1).

End Builder.

(** ** The factory example *)

Module Factory.

(** [type Role = "Mage" | "Warrior"] *)
Inductive Role := RoleMage | RoleWarrior.

(** [MageType | WarriorType], the type of the field [type] of a character
    and of the result of [getRandomType].  The casts [as MageType] and
    [as WarriorType] of the source are unchecked. *)
Inductive CharacterType := Fire | Ice | Barbarian | Paladin.

Definition Role_to_string (r : Role) : string :=
  match r with
  | RoleMage => "Mage"
  | RoleWarrior => "Warrior"
  end.

Definition CharacterType_to_string (t : CharacterType) : string :=
  match t with
  | Fire => "Fire"
  | Ice => "Ice"
  | Barbarian => "Barbarian"
  | Paladin => "Paladin"
  end.

(** The fields of [abstract class Character].  The subclasses declare
    [type] again without an initialiser, which leaves the value the base
    constructor assigned. *)
Record Character := mkCharacter {
  name : string;
  role : Role;
  level : Z;
  type : CharacterType;
  identifier : string
}.

Module Character.

Definition constructor (name : string) (role : Role) (type : CharacterType) (level : Z)
    : Character :=
  mkCharacter name role level type
    (name +:+ " [Lvl " +:+ pretty level +:+ " " +:+ CharacterType_to_string type
          +:+ " " +:+ Role_to_string role +:+ "]").

End Character.

(** An object of one of the two subclasses of [Character]. *)
Inductive CharacterObject :=
| Mage (super : Character) (usesScepter : bool)
| Warrior (super : Character) (weapon : string).

Definition super (c : CharacterObject) : Character :=
  match c with
  | Mage s _ => s
  | Warrior s _ => s
  end.

Module Mage.

Definition constructor (name : string) (level : Z) (type : CharacterType)
    (usesScepter : bool) : CharacterObject :=
  Mage (Character.constructor name RoleMage type level) usesScepter.

(** The line [useAbility] writes to the console. *)
Definition useAbility (this : Character) (usesScepter : bool) : string :=
  let actionSuffix :=
    if usesScepter then " with their scepter!" else " using their magic hands!" in
  match type this with
  | Fire => identifier this +:+ " casted a Fireball " +:+ actionSuffix
  | _ => identifier this +:+ " casted an Iceball " +:+ actionSuffix
  end.

End Mage.

Module Warrior.

Definition constructor (name : string) (level : Z) (type : CharacterType)
    (weapon : string) : CharacterObject :=
  Warrior (Character.constructor name RoleWarrior type level) weapon.

Definition useAbility (this : Character) (weapon : string) : string :=
  identifier this +:+ " swings their " +:+ weapon.

End Warrior.

Definition useAbility (c : CharacterObject) : string :=
  match c with
  | Mage this usesScepter => Mage.useAbility this usesScepter
  | Warrior this weapon => Warrior.useAbility this weapon
  end.

(** A call returns an object or throws an [Error] with a message. *)
Inductive Result (A : Type) :=
| Return (a : A)
| Throw (msg : string).
Arguments Return {A} a.
Arguments Throw {A} msg.

Module CharacterFactory.

(** The two static lookup tables, as the object literals list them. *)
Definition mageWeaponsMap : list (string * string) :=
  [("Hands", "Hands"); ("Scepter", "Scepter")].

Definition warriorWeaponsMap : list (string * string) :=
  [("Hands", "Hands"); ("Axe", "Axe"); ("Sword", "Sword"); ("Hammer", "Hammer")].

(** [Object.keys(o)]: the keys in insertion order (none of them is an
    array index). *)
Definition Object_keys (o : list (string * string)) : list string := map fst o.

(** [keys.includes(x)] *)
Definition includes (keys : list string) (x : string) : bool :=
  existsb (String.eqb x) keys.

(** [getRandomType], given the number [random] that its call of
    [Math.random()] returns. *)
Definition getRandomType (random : Q) (role : Role) : CharacterType :=
  let isOverHalf := negb (Qle_bool random (1 # 2)) in
  match role with
  | RoleMage => if isOverHalf then Fire else Ice
  | RoleWarrior => if isOverHalf then Barbarian else Paladin
  end.

(** [createNewCharacter], given the number [random] that [Math.random()]
    returns if it is called. *)
Definition createNewCharacter (random : Q) (name weapon : string)
    : Result CharacterObject :=
  if includes (Object_keys mageWeaponsMap) weapon then
    Return (Mage.constructor name 1 (getRandomType random RoleMage) true)
  else if includes (Object_keys warriorWeaponsMap) weapon then
    Return (Warrior.constructor name 1 (getRandomType random RoleWarrior) "Sword")
  else
    Throw "This weapon is not available for standard characters!".

End CharacterFactory.

End Factory.

(** * Properties of the builder example *)

Module BuilderProofs.
Import Builder.

(** ** Running a computation *)

Lemma bind_Return {A B} (m : M A) (k : A -> M B) w a w' :
  m w = Return a w' -> (m ≫= k) w = k a w'.
Proof. intros H. unfold mbind, M_bind, bind. by rewrite H. Qed.

Lemma bind_Return_inv {A B} (m : M A) (k : A -> M B) w b w'' :
  (m ≫= k) w = Return b w'' ->
  exists a w', m w = Return a w' /\ k a w' = Return b w''.
Proof.
  unfold mbind, M_bind, bind. destruct (m w) as [a w'| |]; [|done..].
  intros H. by exists a, w'.
Qed.

(** ** The methods of the two builders *)

(** Unfolds a method call down to the store. *)
Ltac unfold_call :=
  unfold run_call, run_step, prepareBase, addMeat, addCheese, getResult, startNew,
    instanceof, new_cook,
    PizzaMaker.constructor, PizzaMaker.prepareBase, PizzaMaker.addMeat,
    PizzaMaker.addCheese, PizzaMaker.getResult, PizzaMaker.startNew,
    SandwichMaker.constructor, SandwichMaker.prepareBase, SandwichMaker.addMeat,
    SandwichMaker.addCheese, SandwichMaker.getResult, SandwichMaker.startNew,
    get_cook, set_cook, alloc_cook, update_pizza, update_sandwich, new_Pizza,
    new_Sandwich, console_log, mbind, M_bind, bind, mret, M_ret, ret, throw, wrong;
  cbn [pizzas sandwiches cooks console].

(** Runs a method call whose lookups are among the hypotheses. *)
Ltac run_call_with H1 H2 :=
  unfold_call; rewrite ?H1; cbn [pizzas sandwiches cooks console];
  rewrite ?H2; reflexivity.

Section methods.
Context (w : World) (c : loc) (name : string) (result : loc).

Section PizzaMaker.
Context (p : Pizza).
Hypothesis Hc : cooks w !! c = Some (PizzaMaker name result).
Hypothesis Hp : pizzas w !! result = Some p.

Lemma prepareBase_PizzaMaker v :
  prepareBase c v w =
  Return tt (mkWorld (<[result := set_flour v p]> (pizzas w)) (sandwiches w) (cooks w)
    (console w ++
       [name +:+ " is preparing the pizza base! " +:+ v +:+ " flour will be used."])).
Proof. run_call_with Hc Hp. Qed.

Lemma addMeat_PizzaMaker v :
  addMeat c v w =
  Return tt (mkWorld (<[result := set_topping v p]> (pizzas w)) (sandwiches w) (cooks w)
    (console w ++
       [name +:+ " is adding the pizza topping! " +:+ v +:+ " will be used."])).
Proof. run_call_with Hc Hp. Qed.

Lemma addCheese_PizzaMaker v :
  addCheese c v w =
  Return tt (mkWorld (<[result := set_pizza_cheese v p]> (pizzas w)) (sandwiches w)
    (cooks w)
    (console w ++
       [name +:+ " is adding cheese to the pizza! " +:+ v +:+ " will be used."])).
Proof. run_call_with Hc Hp. Qed.
End PizzaMaker.

Section SandwichMaker.
Context (s : Sandwich).
Hypothesis Hc : cooks w !! c = Some (SandwichMaker name result).
Hypothesis Hs : sandwiches w !! result = Some s.

Lemma prepareBase_SandwichMaker v :
  prepareBase c v w =
  Return tt (mkWorld (pizzas w) (<[result := set_bread v s]> (sandwiches w)) (cooks w)
    (console w ++
       [name +:+ " is preparing the sandwich bread! " +:+ v +:+ " bread will be used."])).
Proof. run_call_with Hc Hs. Qed.

Lemma addMeat_SandwichMaker v :
  addMeat c v w =
  Return tt (mkWorld (pizzas w) (<[result := set_filling v s]> (sandwiches w)) (cooks w)
    (console w ++
       [name +:+ " is adding filling the sandwich! " +:+ v +:+ " will be used."])).
Proof. run_call_with Hc Hs. Qed.

Lemma addCheese_SandwichMaker v :
  addCheese c v w =
  Return tt (mkWorld (pizzas w) (<[result := set_sandwich_cheese v s]> (sandwiches w))
    (cooks w)
    (console w ++
       [name +:+ " is adding cheese to the sandwich! " +:+ v +:+ " will be used."])).
Proof. run_call_with Hc Hs. Qed.
End SandwichMaker.

Lemma getResult_PizzaMaker :
  cooks w !! c = Some (PizzaMaker name result) ->
  getResult c w =
  Return (PizzaRef result)
    (mkWorld (pizzas w) (sandwiches w) (cooks w) (console w ++ ["Pizza's ready!"])).
Proof. intros Hc. run_call_with Hc Hc. Qed.

Lemma getResult_SandwichMaker :
  cooks w !! c = Some (SandwichMaker name result) ->
  getResult c w =
  Return (SandwichRef result)
    (mkWorld (pizzas w) (sandwiches w) (cooks w) (console w ++ ["Sandwich is ready!"])).
Proof. intros Hc. run_call_with Hc Hc. Qed.

Lemma startNew_PizzaMaker :
  cooks w !! c = Some (PizzaMaker name result) ->
  startNew c w =
  Return tt
    (mkWorld (pizzas w ++ [mkPizza None None None]) (sandwiches w)
       (<[c := PizzaMaker name (length (pizzas w))]> (cooks w)) (console w)).
Proof. intros Hc. run_call_with Hc Hc. Qed.

Lemma startNew_SandwichMaker :
  cooks w !! c = Some (SandwichMaker name result) ->
  startNew c w =
  Return tt
    (mkWorld (pizzas w) (sandwiches w ++ [mkSandwich None None None])
       (<[c := SandwichMaker name (length (sandwiches w))]> (cooks w)) (console w)).
Proof. intros Hc. run_call_with Hc Hc. Qed.

Lemma instanceof_class_of T ck :
  cooks w !! c = Some ck ->
  instanceof c T w = Return (bool_decide (cook_type ck = T)) w.
Proof. intros Hc. run_call_with Hc Hc. Qed.
End methods.

(** ** The script of the file *)

(** The four products of the script are four objects, with the fields the
    script asks for; the manager switches cooks once and creates none. *)
Example demo_run :
  match demo empty_world with
  | Return products w => Some (products, pizzas w, sandwiches w, cooks w)
  | _ => None
  end =
  Some (PizzaRef 0, SandwichRef 0, PizzaRef 1, SandwichRef 1,
        [mkPizza (Some "wheat") (Some "pepperoni") (Some "brick cheese");
         mkPizza (Some "bread") (Some "ground beef") (Some "mozzarella")],
        [mkSandwich (Some "italian") (Some "chicken and mayo") (Some "parmesan");
         mkSandwich (Some "whole grain") (Some "pastrami") (Some "cheddar")],
        [PizzaMaker "Anna" 1; SandwichMaker "Jeremy" 1]).
Proof. vm_compute. reflexivity. Qed.

(** ** Building without a director *)

Ltac simpl_world := cbn [pizzas sandwiches cooks console].

(** Side conditions of the method lemmas: a lookup in the current store. *)
Ltac solve_lookup :=
  simpl_world;
  first
    [ eassumption
    | apply list_lookup_insert_eq; rewrite ?length_insert, ?length_app; cbn;
      solve [eauto using lookup_lt_Some | lia]
    | rewrite lookup_app_r by lia; rewrite Nat.sub_diag; reflexivity ].

(** Runs the first call of a sequence by the lemma [lem]. *)
Ltac step lem :=
  erewrite bind_Return by (eapply lem; solve_lookup);
  simpl_world; rewrite ?list_insert_insert_eq.

Lemma None_union {A} (x : option A) : None ∪ x = x.
Proof. by destruct x. Qed.

Lemma union_None {A} (x : option A) : x ∪ None = x.
Proof. by destruct x. Qed.

Lemma option_union_assoc {A} (x y z : option A) : x ∪ (y ∪ z) = x ∪ y ∪ z.
Proof. by destruct x, y, z. Qed.

Lemma last_arg_cons arg s steps :
  last_arg arg (s :: steps) = last_arg arg steps ∪ arg s.
Proof.
  unfold last_arg. cbn [omap list_omap]. destruct (arg s) as [v|].
  - cbn [option_bind]. rewrite last_cons. by destruct (last _).
  - cbn. by rewrite union_None.
Qed.

Lemma Pizza_eta p : mkPizza (flour p) (topping p) (pizza_cheese p) = p.
Proof. by destruct p. Qed.

Lemma Sandwich_eta s : mkSandwich (bread s) (filling s) (sandwich_cheese s) = s.
Proof. by destruct s. Qed.

(** A build step on a pizza maker only writes to the pizza in progress: the
    field of the step receives the argument, the others keep their value. *)
Lemma run_step_PizzaMaker c n r s w p :
  cooks w !! c = Some (PizzaMaker n r) ->
  pizzas w !! r = Some p ->
  exists w',
    run_step c s w = Return tt w' /\
    cooks w' = cooks w /\
    sandwiches w' = sandwiches w /\
    pizzas w' =
      <[r := mkPizza (base_arg s ∪ flour p) (meat_arg s ∪ topping p)
                     (cheese_arg s ∪ pizza_cheese p)]> (pizzas w).
Proof.
  intros Hc Hp. destruct s as [v|v|v]; cbn [run_step base_arg meat_arg cheese_arg];
    rewrite !None_union; eexists;
    (split;
     [ first [ by eapply prepareBase_PizzaMaker
             | by eapply addMeat_PizzaMaker
             | by eapply addCheese_PizzaMaker ]
     | by rewrite union_Some_l ]).
Qed.

Lemma run_step_SandwichMaker c n r s w x :
  cooks w !! c = Some (SandwichMaker n r) ->
  sandwiches w !! r = Some x ->
  exists w',
    run_step c s w = Return tt w' /\
    cooks w' = cooks w /\
    pizzas w' = pizzas w /\
    sandwiches w' =
      <[r := mkSandwich (base_arg s ∪ bread x) (meat_arg s ∪ filling x)
                        (cheese_arg s ∪ sandwich_cheese x)]> (sandwiches w).
Proof.
  intros Hc Hx. destruct s as [v|v|v]; cbn [run_step base_arg meat_arg cheese_arg];
    rewrite !None_union; eexists;
    (split;
     [ first [ by eapply prepareBase_SandwichMaker
             | by eapply addMeat_SandwichMaker
             | by eapply addCheese_SandwichMaker ]
     | by rewrite union_Some_l ]).
Qed.

(** Any sequence of build steps leaves in each field the last value passed
    for it, or the value the field had when no step wrote to it. *)
Lemma run_steps_PizzaMaker c n r steps : forall w p,
  cooks w !! c = Some (PizzaMaker n r) ->
  pizzas w !! r = Some p ->
  exists w',
    run_steps c steps w = Return tt w' /\
    cooks w' = cooks w /\
    sandwiches w' = sandwiches w /\
    pizzas w' =
      <[r := mkPizza (last_arg base_arg steps ∪ flour p)
                     (last_arg meat_arg steps ∪ topping p)
                     (last_arg cheese_arg steps ∪ pizza_cheese p)]> (pizzas w).
Proof.
  induction steps as [|s steps IH]; intros w p Hc Hp.
  - exists w. split_and!; try done.
    cbn. rewrite !None_union, Pizza_eta. by rewrite list_insert_id.
  - destruct (run_step_PizzaMaker c n r s w p Hc Hp) as (w1 & Hs & Hc1 & Hs1 & Hp1).
    destruct (IH w1 (mkPizza (base_arg s ∪ flour p) (meat_arg s ∪ topping p)
                             (cheese_arg s ∪ pizza_cheese p)))
      as (w' & Hrun & Hc' & Hs' & Hp').
    { by rewrite Hc1. }
    { rewrite Hp1. apply list_lookup_insert_eq. by eapply lookup_lt_Some. }
    exists w'. cbn [run_steps]. rewrite (bind_Return _ _ _ _ _ Hs).
    split_and!; [done|congruence..|].
    rewrite Hp', Hp1, list_insert_insert_eq, !last_arg_cons. cbn.
    by rewrite !option_union_assoc.
Qed.

Lemma run_steps_SandwichMaker c n r steps : forall w x,
  cooks w !! c = Some (SandwichMaker n r) ->
  sandwiches w !! r = Some x ->
  exists w',
    run_steps c steps w = Return tt w' /\
    cooks w' = cooks w /\
    pizzas w' = pizzas w /\
    sandwiches w' =
      <[r := mkSandwich (last_arg base_arg steps ∪ bread x)
                        (last_arg meat_arg steps ∪ filling x)
                        (last_arg cheese_arg steps ∪ sandwich_cheese x)]> (sandwiches w).
Proof.
  induction steps as [|s steps IH]; intros w x Hc Hx.
  - exists w. split_and!; try done.
    cbn. rewrite !None_union, Sandwich_eta. by rewrite list_insert_id.
  - destruct (run_step_SandwichMaker c n r s w x Hc Hx) as (w1 & Hs & Hc1 & Hp1 & Hs1).
    destruct (IH w1 (mkSandwich (base_arg s ∪ bread x) (meat_arg s ∪ filling x)
                                (cheese_arg s ∪ sandwich_cheese x)))
      as (w' & Hrun & Hc' & Hp' & Hs').
    { by rewrite Hc1. }
    { rewrite Hs1. apply list_lookup_insert_eq. by eapply lookup_lt_Some. }
    exists w'. cbn [run_steps]. rewrite (bind_Return _ _ _ _ _ Hs).
    split_and!; [done|congruence..|].
    rewrite Hs', Hs1, list_insert_insert_eq, !last_arg_cons. cbn.
    by rewrite !option_union_assoc.
Qed.

(** The three steps and [getResult], on a pizza maker and on a sandwich
    maker. *)
Lemma three_steps_PizzaMaker w c n r p v1 v2 v3 :
  cooks w !! c = Some (PizzaMaker n r) ->
  pizzas w !! r = Some p ->
  exists w',
    (prepareBase c v1;; addMeat c v2;; addCheese c v3;; getResult c) w
      = Return (PizzaRef r) w' /\
    cooks w' = cooks w /\
    sandwiches w' = sandwiches w /\
    pizzas w' = <[r := mkPizza (Some v1) (Some v2) (Some v3)]> (pizzas w).
Proof.
  intros Hc Hp. eexists. split.
  - step prepareBase_PizzaMaker. step addMeat_PizzaMaker. step addCheese_PizzaMaker.
    by eapply getResult_PizzaMaker.
  - done.
Qed.

Lemma three_steps_SandwichMaker w c n r x v1 v2 v3 :
  cooks w !! c = Some (SandwichMaker n r) ->
  sandwiches w !! r = Some x ->
  exists w',
    (prepareBase c v1;; addMeat c v2;; addCheese c v3;; getResult c) w
      = Return (SandwichRef r) w' /\
    cooks w' = cooks w /\
    pizzas w' = pizzas w /\
    sandwiches w' = <[r := mkSandwich (Some v1) (Some v2) (Some v3)]> (sandwiches w).
Proof.
  intros Hc Hx. eexists. split.
  - step prepareBase_SandwichMaker. step addMeat_SandwichMaker.
    step addCheese_SandwichMaker. by eapply getResult_SandwichMaker.
  - done.
Qed.

(** [startNew], any build steps and [getResult]: the product returned is a
    new object, appended to the store, whose fields are those the steps
    wrote. *)
Lemma startNew_steps_PizzaMaker w c n r steps :
  cooks w !! c = Some (PizzaMaker n r) ->
  exists w',
    (startNew c;; run_steps c steps;; getResult c) w
      = Return (PizzaRef (length (pizzas w))) w' /\
    cooks w' = <[c := PizzaMaker n (length (pizzas w))]> (cooks w) /\
    sandwiches w' = sandwiches w /\
    pizzas w' =
      pizzas w ++ [mkPizza (last_arg base_arg steps) (last_arg meat_arg steps)
                           (last_arg cheese_arg steps)].
Proof.
  intros Hc.
  edestruct (run_steps_PizzaMaker c n (length (pizzas w)) steps
    (mkWorld (pizzas w ++ [mkPizza None None None]) (sandwiches w)
       (<[c := PizzaMaker n (length (pizzas w))]> (cooks w)) (console w)))
    as (w1 & Hrun & Hc1 & Hs1 & Hp1); [solve_lookup..|].
  eexists. split.
  - step startNew_PizzaMaker. rewrite (bind_Return _ _ _ _ _ Hrun).
    eapply getResult_PizzaMaker. rewrite Hc1. solve_lookup.
  - cbn in *. rewrite Hc1, Hs1, Hp1, !union_None. split_and!; [done..|].
    rewrite <-(Nat.add_0_r (length (pizzas w))) at 1. by rewrite insert_app_r.
Qed.

Lemma startNew_steps_SandwichMaker w c n r steps :
  cooks w !! c = Some (SandwichMaker n r) ->
  exists w',
    (startNew c;; run_steps c steps;; getResult c) w
      = Return (SandwichRef (length (sandwiches w))) w' /\
    cooks w' = <[c := SandwichMaker n (length (sandwiches w))]> (cooks w) /\
    pizzas w' = pizzas w /\
    sandwiches w' =
      sandwiches w ++ [mkSandwich (last_arg base_arg steps) (last_arg meat_arg steps)
                                  (last_arg cheese_arg steps)].
Proof.
  intros Hc.
  edestruct (run_steps_SandwichMaker c n (length (sandwiches w)) steps
    (mkWorld (pizzas w) (sandwiches w ++ [mkSandwich None None None])
       (<[c := SandwichMaker n (length (sandwiches w))]> (cooks w)) (console w)))
    as (w1 & Hrun & Hc1 & Hp1 & Hs1); [solve_lookup..|].
  eexists. split.
  - step startNew_SandwichMaker. rewrite (bind_Return _ _ _ _ _ Hrun).
    eapply getResult_SandwichMaker. rewrite Hc1. solve_lookup.
  - cbn in *. rewrite Hc1, Hs1, Hp1, !union_None. split_and!; [done..|].
    rewrite <-(Nat.add_0_r (length (sandwiches w))) at 1. by rewrite insert_app_r.
Qed.

(** C2. On every builder of the store, of either class, the calls
    [prepareBase v1], [addMeat v2], [addCheese v3] and then [getResult]
    return a product whose three fields are [v1], [v2] and [v3], in this
    order, whatever the three strings are. *)
Theorem three_steps_then_getResult w c ck v1 v2 v3 :
  cooks w !! c = Some ck ->
  cook_ok w ck ->
  exists p w',
    (prepareBase c v1;; addMeat c v2;; addCheese c v3;; getResult c) w = Return p w' /\
    deref w' p = Some
      match ck with
      | PizzaMaker _ _ => APizza (mkPizza (Some v1) (Some v2) (Some v3))
      | SandwichMaker _ _ => ASandwich (mkSandwich (Some v1) (Some v2) (Some v3))
      end.
Proof.
  intros Hc Hok. destruct ck as [n r|n r]; cbn in Hok;
    pose proof Hok as [x Hx]%lookup_lt_is_Some_2.
  - destruct (three_steps_PizzaMaker w c n r x v1 v2 v3 Hc Hx) as (w' & Hrun & _ & _ & Hp).
    exists (PizzaRef r), w'. split; [done|].
    cbn. by rewrite Hp, list_lookup_insert_eq.
  - destruct (three_steps_SandwichMaker w c n r x v1 v2 v3 Hc Hx)
      as (w' & Hrun & _ & _ & Hs).
    exists (SandwichRef r), w'. split; [done|].
    cbn. by rewrite Hs, list_lookup_insert_eq.
Qed.

Lemma three_steps_then_getResult_witness :
  cooks kitchen !! 0 = Some (PizzaMaker "Anna" 0) /\
  cook_ok kitchen (PizzaMaker "Anna" 0) /\
  exists p w',
    (prepareBase 0 "wheat";; addMeat 0 "pepperoni";; addCheese 0 "brick cheese";;
     getResult 0) kitchen = Return p w' /\
    deref w' p =
      Some (APizza (mkPizza (Some "wheat") (Some "pepperoni") (Some "brick cheese"))).
Proof.
  split; [reflexivity|]. split; [cbn; lia|].
  apply (three_steps_then_getResult kitchen 0 (PizzaMaker "Anna" 0)
           "wheat" "pepperoni" "brick cheese").
  - reflexivity.
  - cbn. lia.
Defined.

(** C9. After a completed build on any builder, [startNew] makes the
    builder work on a new product: [getResult] right after it returns a
    product, other than the previous one, with all three fields unset; and
    after any build steps it returns a product, other than the previous one,
    each field of which holds the last value these steps passed for it and
    is unset if they passed none.  The previous product keeps its fields. *)
Theorem startNew_leaves_no_residue w c ck v1 v2 v3 steps :
  cooks w !! c = Some ck ->
  cook_ok w ck ->
  exists old w1,
    (prepareBase c v1;; addMeat c v2;; addCheese c v3;; getResult c) w = Return old w1 /\
    (exists fresh w2,
       (startNew c;; getResult c) w1 = Return fresh w2 /\
       fresh <> old /\
       deref w2 fresh = Some
         match ck with
         | PizzaMaker _ _ => APizza (mkPizza None None None)
         | SandwichMaker _ _ => ASandwich (mkSandwich None None None)
         end) /\
    (exists next w2,
       (startNew c;; run_steps c steps;; getResult c) w1 = Return next w2 /\
       next <> old /\
       deref w2 next = Some
         match ck with
         | PizzaMaker _ _ =>
             APizza (mkPizza (last_arg base_arg steps) (last_arg meat_arg steps)
                             (last_arg cheese_arg steps))
         | SandwichMaker _ _ =>
             ASandwich (mkSandwich (last_arg base_arg steps) (last_arg meat_arg steps)
                                   (last_arg cheese_arg steps))
         end /\
       deref w2 old = deref w1 old).
Proof.
  intros Hc Hok. destruct ck as [n r|n r]; cbn in Hok;
    pose proof Hok as [x Hx]%lookup_lt_is_Some_2.
  - destruct (three_steps_PizzaMaker w c n r x v1 v2 v3 Hc Hx)
      as (w1 & Hrun & Hc1 & _ & Hp1).
    assert (r < length (pizzas w1)) as Hr by (by rewrite Hp1, length_insert).
    exists (PizzaRef r), w1. split; [done|]. rewrite <-Hc1 in Hc. split.
    + destruct (startNew_steps_PizzaMaker w1 c n r [] Hc) as (w2 & Hrun2 & _ & _ & Hp2).
      exists (PizzaRef (length (pizzas w1))), w2. split_and!.
      * exact Hrun2.
      * intros [= Heq]. lia.
      * cbn. rewrite Hp2. by rewrite lookup_app_r, Nat.sub_diag by lia.
    + destruct (startNew_steps_PizzaMaker w1 c n r steps Hc) as (w2 & Hrun2 & _ & _ & Hp2).
      exists (PizzaRef (length (pizzas w1))), w2. split_and!.
      * exact Hrun2.
      * intros [= Heq]. lia.
      * cbn. rewrite Hp2. by rewrite lookup_app_r, Nat.sub_diag by lia.
      * cbn. by rewrite Hp2, lookup_app_l.
  - destruct (three_steps_SandwichMaker w c n r x v1 v2 v3 Hc Hx)
      as (w1 & Hrun & Hc1 & _ & Hs1).
    assert (r < length (sandwiches w1)) as Hr by (by rewrite Hs1, length_insert).
    exists (SandwichRef r), w1. split; [done|]. rewrite <-Hc1 in Hc. split.
    + destruct (startNew_steps_SandwichMaker w1 c n r [] Hc)
        as (w2 & Hrun2 & _ & _ & Hs2).
      exists (SandwichRef (length (sandwiches w1))), w2. split_and!.
      * exact Hrun2.
      * intros [= Heq]. lia.
      * cbn. rewrite Hs2. by rewrite lookup_app_r, Nat.sub_diag by lia.
    + destruct (startNew_steps_SandwichMaker w1 c n r steps Hc)
        as (w2 & Hrun2 & _ & _ & Hs2).
      exists (SandwichRef (length (sandwiches w1))), w2. split_and!.
      * exact Hrun2.
      * intros [= Heq]. lia.
      * cbn. rewrite Hs2. by rewrite lookup_app_r, Nat.sub_diag by lia.
      * cbn. by rewrite Hs2, lookup_app_l.
Qed.

Lemma startNew_leaves_no_residue_witness :
  cooks kitchen !! 1 = Some (SandwichMaker "Jeremy" 0) /\
  cook_ok kitchen (SandwichMaker "Jeremy" 0) /\
  exists old w1,
    (prepareBase 1 "italian";; addMeat 1 "chicken and mayo";; addCheese 1 "parmesan";;
     getResult 1) kitchen = Return old w1 /\
    (exists fresh w2,
       (startNew 1;; getResult 1) w1 = Return fresh w2 /\
       fresh <> old /\
       deref w2 fresh = Some (ASandwich (mkSandwich None None None))) /\
    (exists next w2,
       (startNew 1;; run_steps 1 [AddCheese "cheddar"; PrepareBase "rye"; AddCheese "brie"];;
        getResult 1) w1 = Return next w2 /\
       next <> old /\
       deref w2 next = Some (ASandwich (mkSandwich (Some "rye") None (Some "brie"))) /\
       deref w2 old = deref w1 old).
Proof.
  split; [reflexivity|]. split; [cbn; lia|].
  apply (startNew_leaves_no_residue kitchen 1 (SandwichMaker "Jeremy" 0)
           "italian" "chicken and mayo" "parmesan"
           [AddCheese "cheddar"; PrepareBase "rye"; AddCheese "brie"]).
  - reflexivity.
  - cbn. lia.
Defined.

(** ** The director *)

(** C3. Constructing a [KitchenManager] with no cooks throws an error, and
    changes nothing; constructing it with one cook or more returns a manager
    of exactly these cooks whose active cook is the first of them. *)
Theorem constructor_empty_or_first name w :
  KitchenManager.constructor name [] w = Throw "A kitchen manager must have cooks!" w /\
  forall c0 rest,
    KitchenManager.constructor name (c0 :: rest) w
      = Return (mkKitchenManager name (c0 :: rest) c0) w.
Proof. split; [done|]. intros c0 rest. reflexivity. Qed.

Lemma valid_cook_lookup w c : valid_cook w c -> exists ck, cooks w !! c = Some ck.
Proof. intros H. by apply lookup_lt_is_Some_2. Qed.

Lemma instanceof_true w c T :
  class_of w c = Some T -> instanceof c T w = Return true w.
Proof.
  unfold class_of. destruct (cooks w !! c) as [ck|] eqn:Hc; [|done]. intros [= HT].
  erewrite instanceof_class_of by done. by rewrite bool_decide_eq_true_2.
Qed.

Lemma instanceof_false w c T :
  valid_cook w c -> class_of w c <> Some T -> instanceof c T w = Return false w.
Proof.
  intros [ck Hc]%valid_cook_lookup HT. unfold class_of in HT. rewrite Hc in HT.
  erewrite instanceof_class_of by done. rewrite bool_decide_eq_false_2; [done|].
  intros <-. by apply HT.
Qed.

(** [find] returns the first cook of the required class. *)
Lemma find_instanceof_first T w pre c post :
  Forall (valid_cook w) pre ->
  Forall (fun c' => class_of w c' <> Some T) pre ->
  class_of w c = Some T ->
  KitchenManager.find_instanceof T (pre ++ c :: post) w = Return (Some c) w.
Proof.
  intros Hvalid Hpre Hc. induction pre as [|c' pre IH]; cbn [app KitchenManager.find_instanceof].
  - by rewrite (bind_Return _ _ _ _ _ (instanceof_true w c T Hc)).
  - apply Forall_cons in Hvalid as [Hv Hvalid]. apply Forall_cons in Hpre as [Hc' Hpre].
    rewrite (bind_Return _ _ _ _ _ (instanceof_false w c' T Hv Hc')). by apply IH.
Qed.

Lemma find_instanceof_none T w cs :
  Forall (valid_cook w) cs ->
  Forall (fun c' => class_of w c' <> Some T) cs ->
  KitchenManager.find_instanceof T cs w = Return None w.
Proof.
  intros Hvalid Hcs. induction cs as [|c' cs IH]; [done|].
  apply Forall_cons in Hvalid as [Hv Hvalid]. apply Forall_cons in Hcs as [Hc' Hcs].
  cbn [KitchenManager.find_instanceof].
  rewrite (bind_Return _ _ _ _ _ (instanceof_false w c' T Hv Hc')). by apply IH.
Qed.

(** A collection has a first cook of a class, or none. *)
Lemma first_of_class_or_none w T cs :
  (exists pre c post,
     cs = pre ++ c :: post /\
     Forall (fun c' => class_of w c' <> Some T) pre /\
     class_of w c = Some T) \/
  Forall (fun c' => class_of w c' <> Some T) cs.
Proof.
  induction cs as [|c cs IH]; [by right|].
  destruct (decide (class_of w c = Some T)) as [Hc|Hc].
  - left. by exists [], c, cs.
  - destruct IH as [(pre & c' & post & -> & Hpre & Hc')|Hnone].
    + left. exists (c :: pre), c', post. split_and!; [done| |done]. by constructor.
    + right. by constructor.
Qed.

Lemma km_wf_active w this : km_wf w this -> valid_cook w (activeCook this).
Proof.
  intros (_ & Hin & Hall). rewrite Forall_forall in Hall. by apply Hall.
Qed.

(** The three cases of [findSuitableCook]. *)
Section findSuitableCook.
Context (w : World) (this : KitchenManager) (food : Food).
Let T := KitchenManager.RequiredCookType food.
Hypothesis Hwf : km_wf w this.

Lemma findSuitableCook_active :
  class_of w (activeCook this) = Some T ->
  KitchenManager.findSuitableCook this food w = Return this w.
Proof.
  intros Hact. unfold KitchenManager.findSuitableCook.
  by rewrite (bind_Return _ _ _ _ _ (instanceof_true _ _ _ Hact)).
Qed.

Lemma findSuitableCook_managed pre c post :
  class_of w (activeCook this) <> Some T ->
  managedCooks this = pre ++ c :: post ->
  Forall (fun c' => class_of w c' <> Some T) pre ->
  class_of w c = Some T ->
  KitchenManager.findSuitableCook this food w =
  Return (mkKitchenManager (name this) (managedCooks this) c)
    (mkWorld (pizzas w) (sandwiches w) (cooks w)
       (console w ++ ["Changing currently active cook!"])).
Proof.
  intros Hact Hmanaged Hpre Hc. unfold KitchenManager.findSuitableCook.
  rewrite (bind_Return _ _ _ _ _ (instanceof_false _ _ _ (km_wf_active _ _ Hwf) Hact)).
  cbn [negb]. erewrite bind_Return by reflexivity.
  assert (Forall (valid_cook w) pre) as Hvalid.
  { destruct Hwf as (_ & _ & Hall). rewrite Hmanaged in Hall.
    by apply Forall_app in Hall as [Hall _]. }
  rewrite Hmanaged at 1.
  by erewrite bind_Return by (by apply find_instanceof_first).
Qed.

Lemma findSuitableCook_new :
  class_of w (activeCook this) <> Some T ->
  Forall (fun c' => class_of w c' <> Some T) (managedCooks this) ->
  exists ck w',
    KitchenManager.findSuitableCook this food w =
    Return (mkKitchenManager (name this) (managedCooks this ++ [length (cooks w)])
              (length (cooks w))) w' /\
    cooks w' = cooks w ++ [ck] /\
    cook_type ck = T /\
    cook_name ck = "George" /\
    cook_ok w' ck /\
    length (pizzas w) <= length (pizzas w') /\
    length (sandwiches w) <= length (sandwiches w').
Proof.
  intros Hact Hnone. unfold KitchenManager.findSuitableCook.
  rewrite (bind_Return _ _ _ _ _ (instanceof_false _ _ _ (km_wf_active _ _ Hwf) Hact)).
  cbn [negb]. erewrite bind_Return by reflexivity.
  erewrite bind_Return;
    [|apply find_instanceof_none; [by destruct Hwf as (_ & _ & Hall)|done]].
  fold T. destruct T.
  - eexists (PizzaMaker "George" _), _. split; [reflexivity|].
    cbn. rewrite length_app. cbn. split_and!; (done || lia).
  - eexists (SandwichMaker "George" _), _. split; [reflexivity|].
    cbn. rewrite length_app. cbn. split_and!; (done || lia).
Qed.
End findSuitableCook.

Lemma km_wf_mono w w' this :
  length (cooks w) <= length (cooks w') -> km_wf w this -> km_wf w' this.
Proof.
  intros Hle (Hne & Hin & Hall). split_and!; [done..|].
  eapply Forall_impl; [done|]. unfold valid_cook. intros; lia.
Qed.

Lemma class_of_lookup w c T :
  class_of w c = Some T -> exists ck, cooks w !! c = Some ck /\ cook_type ck = T.
Proof.
  unfold class_of. destruct (cooks w !! c) as [ck|]; [|done]. intros [= <-]. by exists ck.
Qed.

(** [findSuitableCook] always returns, with an active cook of the required
    class, and keeps the manager well formed. *)
Lemma findSuitableCook_spec w this food :
  km_wf w this ->
  exists this' w',
    KitchenManager.findSuitableCook this food w = Return this' w' /\
    km_wf w' this' /\
    class_of w' (activeCook this') = Some (KitchenManager.RequiredCookType food) /\
    length (cooks w) <= length (cooks w').
Proof.
  intros Hwf. set (T := KitchenManager.RequiredCookType food).
  destruct (decide (class_of w (activeCook this) = Some T)) as [Hact|Hact].
  { exists this, w. split_and!; [by apply findSuitableCook_active|done..]. }
  destruct (first_of_class_or_none w T (managedCooks this))
    as [(pre & c & post & Hmanaged & Hpre & Hc)|Hnone].
  - eexists _, _. split; [by eapply findSuitableCook_managed|].
    destruct Hwf as (Hne & Hin & Hall). split_and!; [|done..].
    split_and!; [done| |done]. cbn. rewrite Hmanaged, elem_of_app, elem_of_cons. auto.
  - destruct (findSuitableCook_new w this food Hwf Hact Hnone)
      as (ck & w' & Hrun & Hcooks & Hty & _).
    exists (mkKitchenManager (name this) (managedCooks this ++ [length (cooks w)])
              (length (cooks w))), w'.
    assert (length (cooks w') = S (length (cooks w))) as Hlen.
    { rewrite Hcooks, length_app. cbn. lia. }
    split_and!; [done| | |lia].
    + destruct Hwf as (Hne & Hin & Hall). split_and!; cbn.
      * by destruct (managedCooks this).
      * rewrite elem_of_app, list_elem_of_singleton. auto.
      * apply Forall_app. split.
        -- eapply Forall_impl; [exact Hall|]. unfold valid_cook. intros; lia.
        -- repeat constructor. unfold valid_cook. lia.
    + unfold class_of. cbn. rewrite Hcooks.
      rewrite lookup_app_r, Nat.sub_diag by lia. cbn. by rewrite Hty.
Qed.

(** [fulfillOrder] always returns, with a product of the kind ordered whose
    fields are those of the order, and keeps the manager well formed. *)
Lemma fulfillOrder_spec w this o :
  km_wf w this ->
  exists this' p w',
    KitchenManager.fulfillOrder this o w = Return (this', p) w' /\
    km_wf w' this' /\
    length (cooks w) <= length (cooks w') /\
    deref w' p = Some
      match food o with
      | pizza => APizza (mkPizza (Some (base o)) (Some (meat o)) (Some (cheese o)))
      | sandwich => ASandwich (mkSandwich (Some (base o)) (Some (meat o)) (Some (cheese o)))
      end.
Proof.
  intros Hwf.
  destruct (findSuitableCook_spec w this (food o) Hwf) as (this1 & w1 & Hfind & Hwf1 & Hty & Hle).
  apply class_of_lookup in Hty as (ck & Hc & Hty).
  unfold KitchenManager.fulfillOrder. rewrite (bind_Return _ _ _ _ _ Hfind).
  destruct ck as [n r|n r], (food o); try done.
  - eexists this1, (PizzaRef (length (pizzas w1))), _. split.
    + step startNew_PizzaMaker. step prepareBase_PizzaMaker. step addMeat_PizzaMaker.
      step addCheese_PizzaMaker. erewrite bind_Return by (eapply getResult_PizzaMaker; solve_lookup).
      reflexivity.
    + split_and!.
      * eapply km_wf_mono; [|done]. cbn. by rewrite length_insert.
      * cbn. rewrite length_insert. lia.
      * cbn. by rewrite list_lookup_insert_eq by (rewrite length_app; cbn; lia).
  - eexists this1, (SandwichRef (length (sandwiches w1))), _. split.
    + step startNew_SandwichMaker. step prepareBase_SandwichMaker. step addMeat_SandwichMaker.
      step addCheese_SandwichMaker.
      erewrite bind_Return by (eapply getResult_SandwichMaker; solve_lookup).
      reflexivity.
    + split_and!.
      * eapply km_wf_mono; [|done]. cbn. by rewrite length_insert.
      * cbn. rewrite length_insert. lia.
      * cbn. by rewrite list_lookup_insert_eq by (rewrite length_app; cbn; lia).
Qed.

(** ** Reachable states *)

Lemma cook_ok_mono w w' ck :
  length (pizzas w) <= length (pizzas w') ->
  length (sandwiches w) <= length (sandwiches w') ->
  cook_ok w ck -> cook_ok w' ck.
Proof. destruct ck; cbn; lia. Qed.

(** What the client does with the cooks keeps every reference live. *)
Lemma run_call_cooks call w w' :
  run_call call w = Return tt w' -> length (cooks w) <= length (cooks w').
Proof.
  destruct call as [[]| c [] | c | c]; unfold_call;
    intros H; repeat case_match; simplify_eq; cbn;
    rewrite ?length_insert, ?length_app; lia.
Qed.

Lemma run_call_world_wf call w w' :
  run_call call w = Return tt w' -> world_wf w -> world_wf w'.
Proof.
  unfold world_wf.
  destruct call as [[]| c [] | c | c]; unfold_call;
    intros H Hwf; repeat case_match; simplify_eq; cbn.
  all: try apply Forall_app_2; try apply Forall_insert; try (repeat constructor).
  all: try (eapply Forall_impl; [exact Hwf|]; intros ck; apply cook_ok_mono; cbn).
  all: cbn; rewrite ?length_insert, ?length_app; cbn; lia.
Qed.

Lemma constructor_km_wf name cs w0 this w :
  Forall (valid_cook w0) cs ->
  KitchenManager.constructor name cs w0 = Return this w ->
  w = w0 /\ km_wf w this.
Proof.
  intros Hvalid. destruct cs as [|c0 rest]; [done|]. intros [= <- <-].
  split; [done|]. split_and!; [done| |done]. cbn. apply elem_of_cons. auto.
Qed.

(** [fulfillOrder] keeps the store well formed. *)
Lemma findSuitableCook_world_wf w this food this' w' :
  km_wf w this ->
  KitchenManager.findSuitableCook this food w = Return this' w' ->
  world_wf w -> world_wf w'.
Proof.
  intros Hwf Hrun Hw. set (T := KitchenManager.RequiredCookType food).
  destruct (decide (class_of w (activeCook this) = Some T)) as [Hact|Hact].
  { rewrite findSuitableCook_active in Hrun by done. by simplify_eq. }
  destruct (first_of_class_or_none w T (managedCooks this))
    as [(pre & c & post & Hmanaged & Hpre & Hc)|Hnone].
  - erewrite findSuitableCook_managed in Hrun by done. by simplify_eq.
  - destruct (findSuitableCook_new w this food Hwf Hact Hnone)
      as (ck & w'' & Hrun' & Hcooks & _ & _ & Hok & Hp & Hs).
    rewrite Hrun' in Hrun. simplify_eq. unfold world_wf. rewrite Hcooks.
    apply Forall_app_2; [|by repeat constructor].
    eapply Forall_impl; [exact Hw|]. intros ck'. by apply cook_ok_mono.
Qed.

Lemma fulfillOrder_world_wf w this o this' p w' :
  km_wf w this ->
  KitchenManager.fulfillOrder this o w = Return (this', p) w' ->
  world_wf w -> world_wf w'.
Proof.
  intros Hwf Hrun Hw. unfold KitchenManager.fulfillOrder in Hrun.
  apply bind_Return_inv in Hrun as (this1 & w1 & Hfind & Hrun).
  pose proof (findSuitableCook_world_wf _ _ _ _ _ Hwf Hfind Hw) as Hw1.
  apply bind_Return_inv in Hrun as ([] & w2 & Hstart & Hrun).
  pose proof (run_call_world_wf (CallStartNew _) _ _ Hstart Hw1) as Hw2.
  apply bind_Return_inv in Hrun as ([] & w3 & Hbase & Hrun).
  pose proof (run_call_world_wf (CallStep _ (PrepareBase _)) _ _ Hbase Hw2) as Hw3.
  apply bind_Return_inv in Hrun as ([] & w4 & Hmeat & Hrun).
  pose proof (run_call_world_wf (CallStep _ (AddMeat _)) _ _ Hmeat Hw3) as Hw4.
  apply bind_Return_inv in Hrun as ([] & w5 & Hcheese & Hrun).
  pose proof (run_call_world_wf (CallStep _ (AddCheese _)) _ _ Hcheese Hw4) as Hw5.
  apply bind_Return_inv in Hrun as (p' & w6 & Hget & Hret).
  injection Hret as <- <- <-.
  apply (run_call_world_wf (CallGetResult (activeCook this1)) w5); [|done].
  cbn [run_call]. by rewrite (bind_Return _ _ _ _ _ Hget).
Qed.

(** Every reachable state has a well-formed manager over a well-formed
    store. *)
Lemma reachable_wf w this : reachable w this -> km_wf w this /\ world_wf w.
Proof.
  induction 1 as [w0 name cs this w Hw0 Hvalid Hnew
                 |w this o this' p w' _ [Hwf Hw] Hrun
                 |w this call w' _ [Hwf Hw] Hrun].
  - by destruct (constructor_km_wf _ _ _ _ _ Hvalid Hnew) as [-> ?].
  - split; [|by eapply fulfillOrder_world_wf].
    destruct (fulfillOrder_spec w this o Hwf) as (this'' & p'' & w'' & Hrun' & Hwf' & _).
    rewrite Hrun' in Hrun. by simplify_eq.
  - split; [|by eapply run_call_world_wf].
    eapply km_wf_mono; [|done]. by eapply run_call_cooks.
Qed.

(** In a well-formed store no call on a live cook goes wrong. *)
Lemma run_call_returns w call :
  world_wf w -> call_ok w call -> exists w', run_call call w = Return tt w'.
Proof.
  intros Hw Hcall.
  assert (forall c, valid_cook w c -> exists ck, cooks w !! c = Some ck /\ cook_ok w ck)
    as Hlive.
  { intros c [ck Hc]%valid_cook_lookup. exists ck. split; [done|].
    by eapply Forall_lookup_1. }
  destruct call as [[]|c s|c|c]; cbn in Hcall.
  - eexists. reflexivity.
  - eexists. reflexivity.
  - destruct (Hlive c Hcall) as ([n r|n r] & Hc & [x Hx]%lookup_lt_is_Some_2).
    + destruct (run_step_PizzaMaker c n r s w x Hc Hx) as (w' & Hrun & _). by exists w'.
    + destruct (run_step_SandwichMaker c n r s w x Hc Hx) as (w' & Hrun & _). by exists w'.
  - destruct (Hlive c Hcall) as ([n r|n r] & Hc & _); eexists; cbn [run_call].
    + by erewrite bind_Return by (by eapply getResult_PizzaMaker).
    + by erewrite bind_Return by (by eapply getResult_SandwichMaker).
  - destruct (Hlive c Hcall) as ([n r|n r] & Hc & _); eexists; cbn [run_call].
    + by eapply startNew_PizzaMaker.
    + by eapply startNew_SandwichMaker.
Qed.

Lemma reachable_kitchen : reachable kitchen melissa.
Proof.
  apply (reachable_new kitchen "Melissa" [0; 1]).
  - repeat constructor.
  - repeat constructor.
  - reflexivity.
Defined.

(** C1. In every reachable state of a director, [fulfillOrder] returns: for
    an order of a pizza, a pizza whose [flour], [topping] and [cheese] are
    the [base], [meat] and [cheese] of the order; for an order of a
    sandwich, a sandwich whose [bread], [filling] and [cheese] are the
    [base], [meat] and [cheese] of the order. *)
Theorem fulfillOrder_builds_the_order w this o :
  reachable w this ->
  exists this' p w',
    KitchenManager.fulfillOrder this o w = Return (this', p) w' /\
    deref w' p = Some
      match food o with
      | pizza => APizza (mkPizza (Some (base o)) (Some (meat o)) (Some (cheese o)))
      | sandwich => ASandwich (mkSandwich (Some (base o)) (Some (meat o)) (Some (cheese o)))
      end.
Proof.
  intros [Hwf _]%reachable_wf.
  destruct (fulfillOrder_spec w this o Hwf) as (this' & p & w' & Hrun & _ & _ & Hp).
  by exists this', p, w'.
Qed.

Lemma fulfillOrder_builds_the_order_witness :
  reachable kitchen melissa /\
  exists this' p w',
    KitchenManager.fulfillOrder melissa (mkOrder sandwich "whole grain" "pastrami" "cheddar")
      kitchen = Return (this', p) w' /\
    deref w' p =
      Some (ASandwich (mkSandwich (Some "whole grain") (Some "pastrami") (Some "cheddar"))).
Proof.
  split; [exact reachable_kitchen|].
  apply (fulfillOrder_builds_the_order kitchen melissa
           (mkOrder sandwich "whole grain" "pastrami" "cheddar")).
  exact reachable_kitchen.
Defined.

(** C4. In every reachable state of a director, and for every kind of
    food, [findSuitableCook] does the following.  If the active cook is of
    the class required, the manager and the store stay as they are.
    Otherwise, if a managed cook is of the class required, the first such
    cook of the collection becomes active and the collection stays as it is;
    and if no managed cook is of that class, a new cook of that class named
    George is added to the store, appended to the collection, and made
    active. *)
Theorem findSuitableCook_cases w this food :
  reachable w this ->
  let T := KitchenManager.RequiredCookType food in
  (class_of w (activeCook this) = Some T ->
   KitchenManager.findSuitableCook this food w = Return this w) /\
  (class_of w (activeCook this) <> Some T ->
   (forall pre c post,
      managedCooks this = pre ++ c :: post ->
      Forall (fun c' => class_of w c' <> Some T) pre ->
      class_of w c = Some T ->
      KitchenManager.findSuitableCook this food w =
      Return (mkKitchenManager (name this) (managedCooks this) c)
        (mkWorld (pizzas w) (sandwiches w) (cooks w)
           (console w ++ ["Changing currently active cook!"]))) /\
   (Forall (fun c' => class_of w c' <> Some T) (managedCooks this) ->
    exists ck w',
      KitchenManager.findSuitableCook this food w =
      Return (mkKitchenManager (name this) (managedCooks this ++ [length (cooks w)])
                (length (cooks w))) w' /\
      cooks w' = cooks w ++ [ck] /\
      cook_type ck = T /\
      cook_name ck = "George")).
Proof.
  intros [Hwf _]%reachable_wf T. split; [by apply findSuitableCook_active|].
  intros Hact. split.
  - intros pre c post. by apply findSuitableCook_managed.
  - intros Hnone.
    destruct (findSuitableCook_new w this food Hwf Hact Hnone)
      as (ck & w' & Hrun & Hcooks & Hty & Hname & _).
    by exists ck, w'.
Qed.

Lemma findSuitableCook_cases_witness :
  reachable kitchen melissa /\
  KitchenManager.findSuitableCook melissa sandwich kitchen =
  Return (mkKitchenManager "Melissa" [0; 1] 1)
    (mkWorld (pizzas kitchen) (sandwiches kitchen) (cooks kitchen)
       ["Changing currently active cook!"]).
Proof.
  split; [exact reachable_kitchen|].
  destruct (findSuitableCook_cases kitchen melissa sandwich reachable_kitchen)
    as [_ Hother].
  destruct Hother as [Hmanaged _]; [discriminate|].
  apply (Hmanaged [0] 1 []).
  - reflexivity.
  - repeat constructor. discriminate.
  - reflexivity.
Defined.

(** C10. In every state of a director reachable from a successful
    construction by [fulfillOrder] calls (and by any use of the cooks by the
    client in between), the collection of managed cooks is not empty and the
    active cook is one of its elements. *)
Theorem reachable_active_is_managed w this :
  reachable w this ->
  managedCooks this <> [] /\ activeCook this ∈ managedCooks this.
Proof. intros [(Hne & Hin & _) _]%reachable_wf. by split. Qed.

(** A manager of one pizza maker, after an order of a sandwich: George has
    joined. *)
Lemma reachable_pizzeria_after_order :
  exists w, reachable w (mkKitchenManager "Luigi" [0; 1] 1).
Proof.
  eexists.
  eapply (reachable_fulfillOrder pizzeria (mkKitchenManager "Luigi" [0] 0)
            (mkOrder sandwich "whole grain" "pastrami" "cheddar")).
  - apply (reachable_new pizzeria "Luigi" [0]); [repeat constructor..|reflexivity].
  - vm_compute. reflexivity.
Defined.

Lemma reachable_active_is_managed_witness :
  exists w,
    reachable w (mkKitchenManager "Luigi" [0; 1] 1) /\
    managedCooks (mkKitchenManager "Luigi" [0; 1] 1) <> [] /\
    activeCook (mkKitchenManager "Luigi" [0; 1] 1)
      ∈ managedCooks (mkKitchenManager "Luigi" [0; 1] 1).
Proof.
  destruct reachable_pizzeria_after_order as [w Hw]. exists w. split; [exact Hw|].
  apply (reachable_active_is_managed w (mkKitchenManager "Luigi" [0; 1] 1)). exact Hw.
Defined.

(** ** The store after an order *)

(** What [fulfillOrder] does once the active cook is chosen. *)
Lemma build_order_PizzaMaker {A} (x : A) w c n r v1 v2 v3 :
  cooks w !! c = Some (PizzaMaker n r) ->
  (startNew c;; prepareBase c v1;; addMeat c v2;; addCheese c v3;;
   p ← getResult c; ret (x, p)) w =
  Return (x, PizzaRef (length (pizzas w)))
    (mkWorld (pizzas w ++ [mkPizza (Some v1) (Some v2) (Some v3)]) (sandwiches w)
       (<[c := PizzaMaker n (length (pizzas w))]> (cooks w))
       (console w ++
          [n +:+ " is preparing the pizza base! " +:+ v1 +:+ " flour will be used.";
           n +:+ " is adding the pizza topping! " +:+ v2 +:+ " will be used.";
           n +:+ " is adding cheese to the pizza! " +:+ v3 +:+ " will be used.";
           "Pizza's ready!"])).
Proof.
  intros Hc.
  step startNew_PizzaMaker. step prepareBase_PizzaMaker. step addMeat_PizzaMaker.
  step addCheese_PizzaMaker.
  erewrite bind_Return by (eapply getResult_PizzaMaker; solve_lookup).
  unfold mret, M_ret, ret. simpl_world. f_equal. f_equal.
  - rewrite <-(Nat.add_0_r (length (pizzas w))) at 1. by rewrite insert_app_r.
  - by rewrite <-!(assoc_L (++)).
Qed.

Lemma build_order_SandwichMaker {A} (x : A) w c n r v1 v2 v3 :
  cooks w !! c = Some (SandwichMaker n r) ->
  (startNew c;; prepareBase c v1;; addMeat c v2;; addCheese c v3;;
   p ← getResult c; ret (x, p)) w =
  Return (x, SandwichRef (length (sandwiches w)))
    (mkWorld (pizzas w) (sandwiches w ++ [mkSandwich (Some v1) (Some v2) (Some v3)])
       (<[c := SandwichMaker n (length (sandwiches w))]> (cooks w))
       (console w ++
          [n +:+ " is preparing the sandwich bread! " +:+ v1 +:+ " bread will be used.";
           n +:+ " is adding filling the sandwich! " +:+ v2 +:+ " will be used.";
           n +:+ " is adding cheese to the sandwich! " +:+ v3 +:+ " will be used.";
           "Sandwich is ready!"])).
Proof.
  intros Hc.
  step startNew_SandwichMaker. step prepareBase_SandwichMaker. step addMeat_SandwichMaker.
  step addCheese_SandwichMaker.
  erewrite bind_Return by (eapply getResult_SandwichMaker; solve_lookup).
  unfold mret, M_ret, ret. simpl_world. f_equal. f_equal.
  - rewrite <-(Nat.add_0_r (length (sandwiches w))) at 1. by rewrite insert_app_r.
  - by rewrite <-!(assoc_L (++)).
Qed.

Lemma manages_false w this T :
  manages w this T = false <->
  Forall (fun c => class_of w c <> Some T) (managedCooks this).
Proof.
  unfold manages. induction (managedCooks this) as [|c cs IH]; cbn.
  - split; [by constructor|done].
  - rewrite orb_false_iff, IH, Forall_cons, bool_decide_eq_false. done.
Qed.

Lemma manages_true w this T :
  manages w this T = true <->
  exists c, c ∈ managedCooks this /\ class_of w c = Some T.
Proof.
  unfold manages. rewrite existsb_exists. split.
  - intros (c & Hin & Hc). exists c. split; [by apply list_elem_of_In|].
    by apply bool_decide_eq_true in Hc.
  - intros (c & Hin & Hc). exists c. split; [by apply list_elem_of_In|].
    by apply bool_decide_eq_true.
Qed.

(** [findSuitableCook] in full: what it returns and what it leaves in the
    store. *)
Lemma findSuitableCook_full w this food :
  km_wf w this ->
  let T := KitchenManager.RequiredCookType food in
  exists this1 w1 extra,
    KitchenManager.findSuitableCook this food w = Return this1 w1 /\
    km_wf w1 this1 /\
    class_of w1 (activeCook this1) = Some T /\
    name this1 = name this /\
    cooks w1 = cooks w ++ extra /\
    (exists ps, pizzas w1 = pizzas w ++ ps) /\
    (exists ss, sandwiches w1 = sandwiches w ++ ss) /\
    console w1 = console w ++
      (if bool_decide (class_of w (activeCook this) = Some T) then []
       else ["Changing currently active cook!"]) /\
    ((extra = [] /\ managedCooks this1 = managedCooks this /\
      (class_of w (activeCook this) = Some T -> this1 = this)) \/
     (exists ck, extra = [ck] /\ cook_id ck = (T, "George") /\
        managedCooks this1 = managedCooks this ++ [length (cooks w)] /\
        manages w this T = false)).
Proof.
  intros Hwf T.
  destruct (decide (class_of w (activeCook this) = Some T)) as [Hact|Hact].
  { exists this, w, []. rewrite bool_decide_eq_true_2 by done.
    rewrite !app_nil_r. split_and!; try done.
    - by apply findSuitableCook_active.
    - exists []; by rewrite app_nil_r.
    - exists []; by rewrite app_nil_r.
    - by left. }
  rewrite bool_decide_eq_false_2 by done.
  destruct (first_of_class_or_none w T (managedCooks this))
    as [(pre & c & post & Hmanaged & Hpre & Hc)|Hnone].
  - eexists _, _, []. split; [by eapply findSuitableCook_managed|].
    destruct Hwf as (Hne & Hin & Hall). cbn. rewrite !app_nil_r.
    split_and!; try done.
    + split_and!; [done| |done]. cbn. rewrite Hmanaged, elem_of_app, elem_of_cons. auto.
    + exists []; by rewrite app_nil_r.
    + exists []; by rewrite app_nil_r.
    + left. by split_and!.
  - assert (valid_cook w (activeCook this)) as Hv by (by apply km_wf_active).
    unfold KitchenManager.findSuitableCook.
    rewrite (bind_Return _ _ _ _ _ (instanceof_false _ _ _ Hv Hact)).
    cbn [negb]. erewrite bind_Return by reflexivity.
    erewrite bind_Return;
      [|apply find_instanceof_none; [by destruct Hwf as (_ & _ & Hall)|done]].
    fold T. destruct Hwf as (Hne & Hin & Hall).
    assert (Forall (fun c => c < S (length (cooks w))) (managedCooks this)) as Hall'.
    { eapply Forall_impl; [exact Hall|]. unfold valid_cook. intros; lia. }
    destruct T eqn:HT.
    + eexists _, _, [PizzaMaker "George" (length (pizzas w))]. split; [reflexivity|].
      cbn. split_and!; try done.
      * split_and!; cbn.
        -- by destruct (managedCooks this).
        -- rewrite elem_of_app, list_elem_of_singleton. auto.
        -- apply Forall_app. unfold valid_cook. cbn. rewrite length_app. cbn.
           split; [|repeat constructor; lia].
           eapply Forall_impl; [exact Hall'|]. intros; cbn in *; lia.
      * unfold class_of. cbn. by rewrite lookup_app_r, Nat.sub_diag by lia.
      * by eexists.
      * exists []; by rewrite app_nil_r.
      * right. eexists. split_and!; try done. by apply manages_false.
    + eexists _, _, [SandwichMaker "George" (length (sandwiches w))]. split; [reflexivity|].
      cbn. split_and!; try done.
      * split_and!; cbn.
        -- by destruct (managedCooks this).
        -- rewrite elem_of_app, list_elem_of_singleton. auto.
        -- apply Forall_app. unfold valid_cook. cbn. rewrite length_app. cbn.
           split; [|repeat constructor; lia].
           eapply Forall_impl; [exact Hall'|]. intros; cbn in *; lia.
      * unfold class_of. cbn. by rewrite lookup_app_r, Nat.sub_diag by lia.
      * exists []; by rewrite app_nil_r.
      * by eexists.
      * right. eexists. split_and!; try done. by apply manages_false.
Qed.

Lemma cook_ids_insert (l : list Cook) (c : nat) ck ck' :
  l !! c = Some ck -> cook_id ck' = cook_id ck ->
  cook_id <$> <[c := ck']> l = cook_id <$> l.
Proof.
  intros Hc Hid. rewrite list_fmap_insert, Hid. apply list_insert_id.
  by rewrite list_lookup_fmap, Hc.
Qed.

(** [fulfillOrder] in full: what it returns and what it leaves in the
    store. *)
Lemma fulfillOrder_full w this o :
  km_wf w this ->
  let T := KitchenManager.RequiredCookType (food o) in
  exists this' p w' ck extra,
    KitchenManager.fulfillOrder this o w = Return (this', p) w' /\
    km_wf w' this' /\
    name this' = name this /\
    (cooks w' !! activeCook this' = Some ck /\ cook_type ck = T /\ cook_result ck = p) /\
    (deref w p = None /\ deref w' p = Some (ordered o)) /\
    ((exists ps, pizzas w' = pizzas w ++ ps) /\
     (exists ss, sandwiches w' = sandwiches w ++ ss)) /\
    cook_ids w' = cook_ids w ++ (cook_id <$> extra) /\
    console w' = console w ++
      (if bool_decide (class_of w (activeCook this) = Some T) then []
       else ["Changing currently active cook!"]) ++
      match food o with
      | pizza =>
          [cook_name ck +:+ " is preparing the pizza base! " +:+ base o
             +:+ " flour will be used.";
           cook_name ck +:+ " is adding the pizza topping! " +:+ meat o +:+ " will be used.";
           cook_name ck +:+ " is adding cheese to the pizza! " +:+ cheese o
             +:+ " will be used.";
           "Pizza's ready!"]
      | sandwich =>
          [cook_name ck +:+ " is preparing the sandwich bread! " +:+ base o
             +:+ " bread will be used.";
           cook_name ck +:+ " is adding filling the sandwich! " +:+ meat o
             +:+ " will be used.";
           cook_name ck +:+ " is adding cheese to the sandwich! " +:+ cheese o
             +:+ " will be used.";
           "Sandwich is ready!"]
      end /\
    ((extra = [] /\ managedCooks this' = managedCooks this /\
      (class_of w (activeCook this) = Some T -> this' = this)) \/
     (exists g, extra = [g] /\ cook_id g = (T, "George") /\
        managedCooks this' = managedCooks this ++ [length (cooks w)] /\
        manages w this T = false)).
Proof.
  intros Hwf T.
  destruct (findSuitableCook_full w this (food o) Hwf)
    as (this1 & w1 & extra & Hfind & Hwf1 & Hty & Hname & Hcooks & [ps Hps] & [ss Hss]
        & Hconsole & Hcases).
  fold T in Hty, Hconsole, Hcases.
  apply class_of_lookup in Hty as (ck & Hc & Hty).
  unfold KitchenManager.fulfillOrder. rewrite (bind_Return _ _ _ _ _ Hfind).
  unfold ordered. subst T.
  destruct ck as [n r|n r], (food o) eqn:Hfood; try done.
  - rewrite (build_order_PizzaMaker this1 w1 _ n r) by done.
    eexists this1, _, _, (PizzaMaker n (length (pizzas w1))), extra.
    split; [reflexivity|]. simpl_world.
    assert (activeCook this1 < length (cooks w1)) by (by eapply lookup_lt_Some).
    split_and!; try done.
    + eapply km_wf_mono; [|done]. cbn. by rewrite length_insert.
    + by apply list_lookup_insert_eq.
    + cbn. rewrite Hps, length_app. rewrite lookup_ge_None_2 by lia. done.
    + cbn. by rewrite lookup_app_r, Nat.sub_diag by lia.
    + exists (ps ++ [mkPizza (Some (base o)) (Some (meat o)) (Some (cheese o))]).
      by rewrite Hps, (assoc_L (++)).
    + exists ss. done.
    + unfold cook_ids. cbn. erewrite cook_ids_insert by done.
      by rewrite Hcooks, fmap_app.
    + cbn. by rewrite Hconsole, (assoc_L (++)).
  - rewrite (build_order_SandwichMaker this1 w1 _ n r) by done.
    eexists this1, _, _, (SandwichMaker n (length (sandwiches w1))), extra.
    split; [reflexivity|]. simpl_world.
    assert (activeCook this1 < length (cooks w1)) by (by eapply lookup_lt_Some).
    split_and!; try done.
    + eapply km_wf_mono; [|done]. cbn. by rewrite length_insert.
    + by apply list_lookup_insert_eq.
    + cbn. rewrite Hss, length_app. rewrite lookup_ge_None_2 by lia. done.
    + cbn. by rewrite lookup_app_r, Nat.sub_diag by lia.
    + exists ps. done.
    + exists (ss ++ [mkSandwich (Some (base o)) (Some (meat o)) (Some (cheese o))]).
      by rewrite Hss, (assoc_L (++)).
    + unfold cook_ids. cbn. erewrite cook_ids_insert by done.
      by rewrite Hcooks, fmap_app.
    + cbn. by rewrite Hconsole, (assoc_L (++)).
Qed.

(** ** Products shared between a builder and its client *)

(** Build steps write to the product the cook holds, and to no other. *)
Lemma run_steps_written w c ck steps old :
  cooks w !! c = Some ck ->
  deref w (cook_result ck) = Some old ->
  exists w',
    run_steps c steps w = Return tt w' /\
    cooks w' = cooks w /\
    deref w' (cook_result ck) = Some (written steps old) /\
    forall q, q <> cook_result ck -> deref w' q = deref w q.
Proof.
  intros Hc Hold. destruct ck as [n r|n r]; cbn in Hold.
  - destruct (pizzas w !! r) as [x|] eqn:Hx; [|done]. injection Hold as <-.
    destruct (run_steps_PizzaMaker c n r steps w x Hc Hx) as (w' & Hrun & Hc' & Hs' & Hp').
    exists w'. split_and!; [done..| |].
    + cbn. rewrite Hp', list_lookup_insert_eq by (by eapply lookup_lt_Some). done.
    + intros [l|l] Hq; cbn; [|by rewrite Hs'].
      rewrite Hp', list_lookup_insert_ne; [done|]. intros ->. by apply Hq.
  - destruct (sandwiches w !! r) as [x|] eqn:Hx; [|done]. injection Hold as <-.
    destruct (run_steps_SandwichMaker c n r steps w x Hc Hx)
      as (w' & Hrun & Hc' & Hp' & Hs').
    exists w'. split_and!; [done..| |].
    + cbn. rewrite Hs', list_lookup_insert_eq by (by eapply lookup_lt_Some). done.
    + intros [l|l] Hq; cbn; [by rewrite Hp'|].
      rewrite Hs', list_lookup_insert_ne; [done|]. intros ->. by apply Hq.
Qed.

Lemma cook_ok_deref w ck : cook_ok w ck -> is_Some (deref w (cook_result ck)).
Proof.
  destruct ck as [n r|n r]; cbn; intros Hr; apply fmap_is_Some;
    by apply lookup_lt_is_Some_2.
Qed.

Lemma getResult_cook_result w c ck :
  cooks w !! c = Some ck ->
  exists w',
    getResult c w = Return (cook_result ck) w' /\
    cooks w' = cooks w /\ pizzas w' = pizzas w /\ sandwiches w' = sandwiches w.
Proof.
  intros Hc. destruct ck as [n r|n r]; eexists.
  - split; [by eapply getResult_PizzaMaker|done].
  - split; [by eapply getResult_SandwichMaker|done].
Qed.

(** X2. On every builder, any sequence of build steps followed by
    [getResult] returns the product the builder already held; each field of
    it holds the last value the steps passed for it, and keeps the value it
    had when no step passed one; no other product changes. *)
Theorem steps_write_their_fields_only w c ck steps :
  cooks w !! c = Some ck ->
  cook_ok w ck ->
  exists old w',
    deref w (cook_result ck) = Some old /\
    (run_steps c steps;; getResult c) w = Return (cook_result ck) w' /\
    deref w' (cook_result ck) = Some (written steps old) /\
    forall q, q <> cook_result ck -> deref w' q = deref w q.
Proof.
  intros Hc [old Hold]%cook_ok_deref.
  destruct (run_steps_written w c ck steps old Hc Hold) as (w1 & Hrun & Hc1 & Hnew & Hframe).
  rewrite <-Hc1 in Hc.
  destruct (getResult_cook_result w1 c ck Hc) as (w' & Hget & _ & Hp & Hs).
  exists old, w'. split_and!; [done| | |].
  - by rewrite (bind_Return _ _ _ _ _ Hrun).
  - rewrite <-Hnew. destruct ck; cbn; by rewrite ?Hp, ?Hs.
  - intros q Hq. rewrite <-(Hframe q Hq). destruct q; cbn; by rewrite ?Hp, ?Hs.
Qed.

Lemma steps_write_their_fields_only_witness :
  cooks kitchen !! 0 = Some (PizzaMaker "Anna" 0) /\
  cook_ok kitchen (PizzaMaker "Anna" 0) /\
  exists old w',
    deref kitchen (PizzaRef 0) = Some old /\
    (run_steps 0 [AddCheese "brie"; AddMeat "ham"; AddCheese "feta"];; getResult 0) kitchen
      = Return (PizzaRef 0) w' /\
    deref w' (PizzaRef 0)
      = Some (written [AddCheese "brie"; AddMeat "ham"; AddCheese "feta"] old) /\
    forall q, q <> PizzaRef 0 -> deref w' q = deref kitchen q.
Proof.
  split; [reflexivity|]. split; [cbn; lia|].
  apply (steps_write_their_fields_only kitchen 0 (PizzaMaker "Anna" 0)
           [AddCheese "brie"; AddMeat "ham"; AddCheese "feta"]).
  - reflexivity.
  - cbn. lia.
Defined.

(** X1. Without a director nothing calls [startNew]: two builds in a row on
    the same builder return the same product object, which holds the values
    of the first build after the first and those of the second build after
    the second. *)
Theorem second_build_overwrites_first w c ck a1 a2 a3 b1 b2 b3 :
  cooks w !! c = Some ck ->
  cook_ok w ck ->
  let create :=
    match ck with
    | PizzaMaker _ _ => createPizzaWithoutKitchenManager
    | SandwichMaker _ _ => createSandwichWithoutKitchenManager
    end in
  let product v1 v2 v3 :=
    match ck with
    | PizzaMaker _ _ => APizza (mkPizza (Some v1) (Some v2) (Some v3))
    | SandwichMaker _ _ => ASandwich (mkSandwich (Some v1) (Some v2) (Some v3))
    end in
  exists p w1 w2,
    create c a1 a2 a3 w = Return p w1 /\
    deref w1 p = Some (product a1 a2 a3) /\
    create c b1 b2 b3 w1 = Return p w2 /\
    deref w2 p = Some (product b1 b2 b3).
Proof.
  intros Hc Hok. destruct ck as [n r|n r]; cbn in Hok |- *;
    pose proof Hok as [x Hx]%lookup_lt_is_Some_2.
  - destruct (three_steps_PizzaMaker w c n r x a1 a2 a3 Hc Hx)
      as (w1 & Hrun1 & Hc1 & _ & Hp1).
    assert (pizzas w1 !! r = Some (mkPizza (Some a1) (Some a2) (Some a3))) as Hx1.
    { by rewrite Hp1, list_lookup_insert_eq. }
    rewrite <-Hc1 in Hc.
    destruct (three_steps_PizzaMaker w1 c n r _ b1 b2 b3 Hc Hx1)
      as (w2 & Hrun2 & _ & _ & Hp2).
    exists (PizzaRef r), w1, w2. split_and!; [done| |done|].
    + cbn. by rewrite Hx1.
    + cbn. rewrite Hp2, list_lookup_insert_eq by (by eapply lookup_lt_Some). done.
  - destruct (three_steps_SandwichMaker w c n r x a1 a2 a3 Hc Hx)
      as (w1 & Hrun1 & Hc1 & _ & Hs1).
    assert (sandwiches w1 !! r = Some (mkSandwich (Some a1) (Some a2) (Some a3))) as Hx1.
    { by rewrite Hs1, list_lookup_insert_eq. }
    rewrite <-Hc1 in Hc.
    destruct (three_steps_SandwichMaker w1 c n r _ b1 b2 b3 Hc Hx1)
      as (w2 & Hrun2 & _ & _ & Hs2).
    exists (SandwichRef r), w1, w2. split_and!; [done| |done|].
    + cbn. by rewrite Hx1.
    + cbn. rewrite Hs2, list_lookup_insert_eq by (by eapply lookup_lt_Some). done.
Qed.

Lemma second_build_overwrites_first_witness :
  cooks kitchen !! 1 = Some (SandwichMaker "Jeremy" 0) /\
  cook_ok kitchen (SandwichMaker "Jeremy" 0) /\
  exists p w1 w2,
    createSandwichWithoutKitchenManager 1 "italian" "chicken and mayo" "parmesan" kitchen
      = Return p w1 /\
    deref w1 p = Some (ASandwich (mkSandwich (Some "italian") (Some "chicken and mayo")
                                             (Some "parmesan"))) /\
    createSandwichWithoutKitchenManager 1 "rye" "pastrami" "cheddar" w1 = Return p w2 /\
    deref w2 p = Some (ASandwich (mkSandwich (Some "rye") (Some "pastrami")
                                             (Some "cheddar"))).
Proof.
  split; [reflexivity|]. split; [cbn; lia|].
  apply (second_build_overwrites_first kitchen 1 (SandwichMaker "Jeremy" 0)
           "italian" "chicken and mayo" "parmesan" "rye" "pastrami" "cheddar").
  - reflexivity.
  - cbn. lia.
Defined.

(** ** More on the director *)

(** Products of a store that only grew are what they were. *)
Lemma deref_grown w w' q :
  (exists ps, pizzas w' = pizzas w ++ ps) ->
  (exists ss, sandwiches w' = sandwiches w ++ ss) ->
  is_Some (deref w q) -> deref w' q = deref w q.
Proof.
  intros [ps Hps] [ss Hss]. destruct q as [l|l]; cbn; intros [x Hx]%fmap_is_Some.
  - rewrite Hps, lookup_app_l; [done|]. by eapply lookup_lt_Some.
  - rewrite Hss, lookup_app_l; [done|]. by eapply lookup_lt_Some.
Qed.

Lemma class_of_cook_ids w c : class_of w c = fst <$> cook_ids w !! c.
Proof.
  unfold class_of, cook_ids. rewrite list_lookup_fmap. by destruct (_ !! _).
Qed.

(** X3. In every reachable state, the product [fulfillOrder] returns is a
    new object of the store, and every product the store already held is
    left as it was. *)
Theorem fulfillOrder_new_product w this o :
  reachable w this ->
  exists this' p w',
    KitchenManager.fulfillOrder this o w = Return (this', p) w' /\
    deref w p = None /\
    forall q, is_Some (deref w q) -> deref w' q = deref w q.
Proof.
  intros [Hwf _]%reachable_wf.
  destruct (fulfillOrder_full w this o Hwf)
    as (this' & p & w' & ck & extra & Hrun & _ & _ & _ & [Hnew _] & [Hps Hss] & _).
  exists this', p, w'. split_and!; [done..|]. intros q. by apply deref_grown.
Qed.

Lemma fulfillOrder_new_product_witness :
  reachable kitchen melissa /\
  exists this' p w',
    KitchenManager.fulfillOrder melissa (mkOrder pizza "bread" "ground beef" "mozzarella")
      kitchen = Return (this', p) w' /\
    deref kitchen p = None /\
    forall q, is_Some (deref kitchen q) -> deref w' q = deref kitchen q.
Proof.
  split; [exact reachable_kitchen|].
  apply (fulfillOrder_new_product kitchen melissa
           (mkOrder pizza "bread" "ground beef" "mozzarella")).
  exact reachable_kitchen.
Defined.

(** X4. The product [fulfillOrder] returns is still the one its active cook
    builds: build steps the client then runs on that cook change the
    returned product, field by field. *)
Theorem fulfillOrder_product_in_progress w this o steps :
  reachable w this ->
  exists this' p w' w'',
    KitchenManager.fulfillOrder this o w = Return (this', p) w' /\
    deref w' p = Some (ordered o) /\
    run_steps (activeCook this') steps w' = Return tt w'' /\
    deref w'' p = Some (written steps (ordered o)).
Proof.
  intros [Hwf _]%reachable_wf.
  destruct (fulfillOrder_full w this o Hwf)
    as (this' & p & w' & ck & extra & Hrun & _ & _ & (Hc & _ & <-) & [_ Hp] & _).
  destruct (run_steps_written w' (activeCook this') ck steps _ Hc Hp)
    as (w'' & Hsteps & _ & Hp' & _).
  by exists this', (cook_result ck), w', w''.
Qed.

Lemma fulfillOrder_product_in_progress_witness :
  reachable kitchen melissa /\
  exists this' p w' w'',
    KitchenManager.fulfillOrder melissa (mkOrder pizza "bread" "ground beef" "mozzarella")
      kitchen = Return (this', p) w' /\
    deref w' p = Some (APizza (mkPizza (Some "bread") (Some "ground beef")
                                       (Some "mozzarella"))) /\
    run_steps (activeCook this') [AddMeat "tofu"] w' = Return tt w'' /\
    deref w'' p = Some (written [AddMeat "tofu"]
                          (APizza (mkPizza (Some "bread") (Some "ground beef")
                                           (Some "mozzarella")))).
Proof.
  split; [exact reachable_kitchen|].
  apply (fulfillOrder_product_in_progress kitchen melissa
           (mkOrder pizza "bread" "ground beef" "mozzarella") [AddMeat "tofu"]).
  exact reachable_kitchen.
Defined.

(** X5. In every reachable state, an order for the same kind of food as the
    order before it leaves the manager as it is, and returns another product
    than the one before, which keeps its fields. *)
Theorem fulfillOrder_same_food_again w this o o2 :
  reachable w this ->
  food o2 = food o ->
  exists this' p w' p2 w2,
    KitchenManager.fulfillOrder this o w = Return (this', p) w' /\
    KitchenManager.fulfillOrder this' o2 w' = Return (this', p2) w2 /\
    p2 <> p /\
    deref w2 p = Some (ordered o) /\
    deref w2 p2 = Some (ordered o2).
Proof.
  intros [Hwf _]%reachable_wf Hfood.
  destruct (fulfillOrder_full w this o Hwf)
    as (this' & p & w' & ck & extra & Hrun & Hwf' & _ & (Hc & Hty & _) & [_ Hp] & _).
  destruct (fulfillOrder_full w' this' o2 Hwf')
    as (this2 & p2 & w2 & ck2 & extra2 & Hrun2 & _ & _ & _ & [Hnew2 Hp2] & [Hps Hss]
        & _ & _ & Hcases).
  assert (class_of w' (activeCook this')
            = Some (KitchenManager.RequiredCookType (food o2))) as Hact.
  { unfold class_of. by rewrite Hc, Hfood, <-Hty. }
  assert (this2 = this') as ->.
  { destruct Hcases as [(_ & _ & Hsame)|(g & _ & _ & _ & Hnone)]; [by apply Hsame|].
    apply manages_false in Hnone. destruct Hwf' as (_ & Hin & _).
    rewrite Forall_forall in Hnone. by destruct (Hnone _ Hin). }
  exists this', p, w', p2, w2. split_and!; [done..| | |done].
  - intros ->. by rewrite Hp in Hnew2.
  - rewrite <-Hp. apply deref_grown; [done..|]. by rewrite Hp.
Qed.

Lemma fulfillOrder_same_food_again_witness :
  reachable kitchen melissa /\
  exists this' p w' p2 w2,
    KitchenManager.fulfillOrder melissa
      (mkOrder sandwich "whole grain" "pastrami" "cheddar") kitchen = Return (this', p) w' /\
    KitchenManager.fulfillOrder this' (mkOrder sandwich "rye" "ham" "brie") w'
      = Return (this', p2) w2 /\
    p2 <> p /\
    deref w2 p = Some (ordered (mkOrder sandwich "whole grain" "pastrami" "cheddar")) /\
    deref w2 p2 = Some (ordered (mkOrder sandwich "rye" "ham" "brie")).
Proof.
  split; [exact reachable_kitchen|].
  apply (fulfillOrder_same_food_again kitchen melissa
           (mkOrder sandwich "whole grain" "pastrami" "cheddar")
           (mkOrder sandwich "rye" "ham" "brie")).
  - exact reachable_kitchen.
  - reflexivity.
Defined.

(** X6. In every reachable state, [fulfillOrder] keeps the name of the
    manager, the class and the name of every cook of the store, and the
    managed cooks in their order.  It adds at most one cook, at the end of
    both the store and the collection: a cook of the class the food requires,
    named George, and only when the manager has no cook of that class. *)
Theorem fulfillOrder_keeps_cooks w this o :
  reachable w this ->
  let T := KitchenManager.RequiredCookType (food o) in
  exists this' p w' new,
    KitchenManager.fulfillOrder this o w = Return (this', p) w' /\
    name this' = name this /\
    managedCooks this' = managedCooks this ++ new /\
    cook_ids w' = cook_ids w ++ ((fun _ => (T, "George")) <$> new) /\
    (new = [] \/ (new = [length (cooks w)] /\ manages w this T = false)).
Proof.
  intros [Hwf _]%reachable_wf T.
  destruct (fulfillOrder_full w this o Hwf)
    as (this' & p & w' & ck & extra & Hrun & _ & Hname & _ & _ & _ & Hids & _ & Hcases).
  destruct Hcases as [(-> & Hmanaged & _)|(g & -> & Hg & Hmanaged & Hnone)].
  - exists this', p, w', []. rewrite app_nil_r. split_and!; [done..|by left].
  - exists this', p, w', [length (cooks w)]. split_and!; [done..| |by right].
    rewrite Hids. cbn. by rewrite Hg.
Qed.

Lemma fulfillOrder_keeps_cooks_witness :
  reachable pizzeria (mkKitchenManager "Luigi" [0] 0) /\
  exists this' p w' new,
    KitchenManager.fulfillOrder (mkKitchenManager "Luigi" [0] 0)
      (mkOrder sandwich "rye" "ham" "brie") pizzeria = Return (this', p) w' /\
    name this' = "Luigi" /\
    managedCooks this' = [0] ++ new /\
    cook_ids w' = cook_ids pizzeria ++ ((fun _ => (SandwichMakerT, "George")) <$> new) /\
    (new = [] \/
     (new = [1] /\
      manages pizzeria (mkKitchenManager "Luigi" [0] 0) SandwichMakerT = false)).
Proof.
  assert (reachable pizzeria (mkKitchenManager "Luigi" [0] 0)) as Hreach.
  { apply (reachable_new pizzeria "Luigi" [0]); [repeat constructor..|reflexivity]. }
  split; [exact Hreach|].
  apply (fulfillOrder_keeps_cooks pizzeria (mkKitchenManager "Luigi" [0] 0)
           (mkOrder sandwich "rye" "ham" "brie")).
  exact Hreach.
Defined.

(** X7. None of the calls a client makes on the cooks changes the class or
    the name of a cook of the store: a constructor adds a cook of its class
    with the name given, at the end of the store, and a build step,
    [getResult] or [startNew] leaves the classes and names as they are. *)
Theorem run_call_keeps_cooks call w w' :
  run_call call w = Return tt w' ->
  cook_ids w' = cook_ids w ++
    match call with
    | CallNew T name => [(T, name)]
    | _ => []
    end.
Proof.
  unfold cook_ids.
  destruct call as [[]| c [] | c | c]; unfold_call;
    intros H; repeat case_match; simplify_eq; cbn;
    rewrite ?app_nil_r, ?fmap_app; try done;
    by erewrite cook_ids_insert.
Qed.

Lemma run_call_keeps_cooks_witness :
  run_call (CallStartNew 0) kitchen
    = Return tt (mkWorld [mkPizza None None None; mkPizza None None None]
                   [mkSandwich None None None]
                   [PizzaMaker "Anna" 1; SandwichMaker "Jeremy" 0] []) /\
  cook_ids (mkWorld [mkPizza None None None; mkPizza None None None]
              [mkSandwich None None None]
              [PizzaMaker "Anna" 1; SandwichMaker "Jeremy" 0] [])
    = cook_ids kitchen ++ [].
Proof.
  split; [reflexivity|].
  apply (run_call_keeps_cooks (CallStartNew 0) kitchen). reflexivity.
Defined.

(** A cook of the store keeps its class when the list of classes and names
    only grows. *)
Lemma class_of_grown w w' ids c T :
  cook_ids w' = cook_ids w ++ ids ->
  class_of w c = Some T -> class_of w' c = Some T.
Proof.
  intros Hids. rewrite !class_of_cook_ids, Hids.
  destruct (cook_ids w !! c) as [id|] eqn:Hc; [|done].
  by erewrite lookup_app_l_Some.
Qed.

Lemma manages_grown w w' ids this this' new T :
  cook_ids w' = cook_ids w ++ ids ->
  managedCooks this' = managedCooks this ++ new ->
  manages w this T = true -> manages w' this' T = true.
Proof.
  intros Hids Hmanaged (c & Hin & Hc)%manages_true. apply manages_true.
  exists c. split; [|by eapply class_of_grown].
  rewrite Hmanaged, elem_of_app. auto.
Qed.

(** An order takes from the classes the manager misses as many as it adds
    cooks. *)
Lemma fulfillOrder_missing w this o :
  km_wf w this ->
  exists this' p w' new,
    KitchenManager.fulfillOrder this o w = Return (this', p) w' /\
    km_wf w' this' /\
    managedCooks this' = managedCooks this ++ new /\
    length new + missing w' this' <= missing w this.
Proof.
  intros Hwf.
  destruct (fulfillOrder_full w this o Hwf)
    as (this' & p & w' & ck & extra & Hrun & Hwf' & _ & (Hc & Hty & _) & _ & _ & Hids & _
        & Hcases).
  assert (forall T, manages w this T = true -> manages w' this' T = true) as Hmono.
  { intros T. destruct Hcases as [(_ & Hm & _)|(g & _ & _ & Hm & _)].
    - eapply manages_grown; [done|]. by rewrite Hm, app_nil_r.
    - by eapply manages_grown. }
  assert (manages w' this' (KitchenManager.RequiredCookType (food o)) = true) as Hnow.
  { apply manages_true. exists (activeCook this'). destruct Hwf' as (_ & Hin & _).
    split; [done|]. unfold class_of. by rewrite Hc, <-Hty. }
  destruct Hcases as [(_ & Hm & _)|(g & _ & _ & Hm & Hnone)].
  - exists this', p, w', []. rewrite app_nil_r. split_and!; [done..|].
    unfold missing. cbn.
    pose proof (Hmono PizzaMakerT). pose proof (Hmono SandwichMakerT).
    repeat case_match; try lia; naive_solver.
  - exists this', p, w', [length (cooks w)]. split_and!; [done..|].
    unfold missing. cbn.
    pose proof (Hmono PizzaMakerT). pose proof (Hmono SandwichMakerT).
    destruct (KitchenManager.RequiredCookType (food o));
      repeat case_match; try lia; naive_solver.
Qed.

Lemma fulfillOrders_missing orders : forall w this,
  km_wf w this ->
  exists this' ps w' new,
    fulfillOrders this orders w = Return (this', ps) w' /\
    length ps = length orders /\
    managedCooks this' = managedCooks this ++ new /\
    length new + missing w' this' <= missing w this.
Proof.
  induction orders as [|o orders IH]; intros w this Hwf.
  - exists this, [], w, []. rewrite app_nil_r. split_and!; [done..|]. cbn. lia.
  - destruct (fulfillOrder_missing w this o Hwf)
      as (this1 & p & w1 & new1 & Hrun1 & Hwf1 & Hm1 & Hle1).
    destruct (IH w1 this1 Hwf1) as (this' & ps & w' & new & Hrun & Hlen & Hm & Hle).
    exists this', (p :: ps), w', (new1 ++ new). split_and!.
    + cbn [fulfillOrders]. rewrite (bind_Return _ _ _ _ _ Hrun1). cbn [fst snd].
      by rewrite (bind_Return _ _ _ _ _ Hrun).
    + cbn. by rewrite Hlen.
    + by rewrite Hm, Hm1, (assoc_L (++)).
    + rewrite length_app. lia.
Qed.

(** X8. In every reachable state, a series of orders returns one product
    per order, keeps the managed cooks in their order and adds at most as
    many cooks as there are classes of which the manager has none: at most
    two, whatever the number of orders. *)
Theorem fulfillOrders_adds_at_most_two_cooks w this orders :
  reachable w this ->
  exists this' ps w' new,
    fulfillOrders this orders w = Return (this', ps) w' /\
    length ps = length orders /\
    managedCooks this' = managedCooks this ++ new /\
    length new <= missing w this /\
    length new <= 2.
Proof.
  intros [Hwf _]%reachable_wf.
  destruct (fulfillOrders_missing orders w this Hwf)
    as (this' & ps & w' & new & Hrun & Hlen & Hm & Hle).
  exists this', ps, w', new. split_and!; [done..|lia|].
  assert (missing w this <= 2); [|lia].
  unfold missing. repeat case_match; lia.
Qed.

Lemma fulfillOrders_adds_at_most_two_cooks_witness :
  reachable pizzeria (mkKitchenManager "Luigi" [0] 0) /\
  exists this' ps w' new,
    fulfillOrders (mkKitchenManager "Luigi" [0] 0)
      [mkOrder sandwich "rye" "ham" "brie"; mkOrder pizza "bread" "ground beef" "mozzarella";
       mkOrder sandwich "italian" "pastrami" "cheddar"] pizzeria
      = Return (this', ps) w' /\
    length ps = 3 /\
    managedCooks this' = [0] ++ new /\
    length new <= missing pizzeria (mkKitchenManager "Luigi" [0] 0) /\
    length new <= 2.
Proof.
  assert (reachable pizzeria (mkKitchenManager "Luigi" [0] 0)) as Hreach.
  { apply (reachable_new pizzeria "Luigi" [0]); [repeat constructor..|reflexivity]. }
  split; [exact Hreach|].
  apply (fulfillOrders_adds_at_most_two_cooks pizzeria (mkKitchenManager "Luigi" [0] 0)
           [mkOrder sandwich "rye" "ham" "brie";
            mkOrder pizza "bread" "ground beef" "mozzarella";
            mkOrder sandwich "italian" "pastrami" "cheddar"]).
  exact Hreach.
Defined.

(** X9. In every reachable state, [fulfillOrder] appends to the console,
    and removes nothing from it: the line of the change of cook exactly when
    the active cook is not of the class the food requires, then the three
    lines of the build steps, with the name of the cook that is active
    afterwards and the values of the order, then the line of the product. *)
Theorem fulfillOrder_console w this o :
  reachable w this ->
  exists this' p w' n,
    KitchenManager.fulfillOrder this o w = Return (this', p) w' /\
    cook_name <$> cooks w' !! activeCook this' = Some n /\
    console w' = console w ++
      (if bool_decide (class_of w (activeCook this)
                         = Some (KitchenManager.RequiredCookType (food o)))
       then [] else ["Changing currently active cook!"]) ++
      match food o with
      | pizza =>
          [n +:+ " is preparing the pizza base! " +:+ base o +:+ " flour will be used.";
           n +:+ " is adding the pizza topping! " +:+ meat o +:+ " will be used.";
           n +:+ " is adding cheese to the pizza! " +:+ cheese o +:+ " will be used.";
           "Pizza's ready!"]
      | sandwich =>
          [n +:+ " is preparing the sandwich bread! " +:+ base o +:+ " bread will be used.";
           n +:+ " is adding filling the sandwich! " +:+ meat o +:+ " will be used.";
           n +:+ " is adding cheese to the sandwich! " +:+ cheese o +:+ " will be used.";
           "Sandwich is ready!"]
      end.
Proof.
  intros [Hwf _]%reachable_wf.
  destruct (fulfillOrder_full w this o Hwf)
    as (this' & p & w' & ck & extra & Hrun & _ & _ & (Hc & _ & _) & _ & _ & _ & Hconsole & _).
  exists this', p, w', (cook_name ck). split_and!; [done| |done].
  by rewrite Hc.
Qed.

Lemma fulfillOrder_console_witness :
  reachable kitchen melissa /\
  exists this' p w' n,
    KitchenManager.fulfillOrder melissa (mkOrder sandwich "rye" "ham" "brie") kitchen
      = Return (this', p) w' /\
    cook_name <$> cooks w' !! activeCook this' = Some n /\
    console w' = console kitchen ++
      (if bool_decide (class_of kitchen (activeCook melissa) = Some SandwichMakerT)
       then [] else ["Changing currently active cook!"]) ++
      [n +:+ " is preparing the sandwich bread! " +:+ "rye" +:+ " bread will be used.";
       n +:+ " is adding filling the sandwich! " +:+ "ham" +:+ " will be used.";
       n +:+ " is adding cheese to the sandwich! " +:+ "brie" +:+ " will be used.";
       "Sandwich is ready!"].
Proof.
  split; [exact reachable_kitchen|].
  apply (fulfillOrder_console kitchen melissa (mkOrder sandwich "rye" "ham" "brie")).
  exact reachable_kitchen.
Defined.

(** X10. In every reachable state every call of a client on a live cook
    returns: no method of a builder throws, and the state it leaves is
    reachable as well. *)
Theorem reachable_call_returns w this call :
  reachable w this ->
  call_ok w call ->
  exists w', run_call call w = Return tt w' /\ reachable w' this.
Proof.
  intros Hreach Hcall. pose proof (reachable_wf w this Hreach) as [_ Hw].
  destruct (run_call_returns w call Hw Hcall) as [w' Hrun].
  exists w'. split; [done|]. by eapply reachable_client.
Qed.

Lemma reachable_call_returns_witness :
  reachable kitchen melissa /\
  call_ok kitchen (CallStep 1 (AddMeat "ham")) /\
  exists w', run_call (CallStep 1 (AddMeat "ham")) kitchen = Return tt w' /\
             reachable w' melissa.
Proof.
  split; [exact reachable_kitchen|]. split; [cbn; unfold valid_cook; cbn; lia|].
  apply (reachable_call_returns kitchen melissa (CallStep 1 (AddMeat "ham"))).
  - exact reachable_kitchen.
  - cbn. unfold valid_cook. cbn. lia.
Defined.

End BuilderProofs.

(** * Properties of the factory example *)

Module FactoryProofs.
Import Factory.
Import CharacterFactory.

(** [includes] is membership in the list of keys. *)
Lemma includes_elem_of keys x : includes keys x = true <-> x ∈ keys.
Proof.
  unfold includes. induction keys as [|k keys IH]; cbn.
  - split; [done|]. by intros ?%elem_of_nil.
  - rewrite orb_true_iff, IH, elem_of_cons, String.eqb_eq. done.
Qed.

Lemma includes_not_elem_of keys x : x ∉ keys -> includes keys x = false.
Proof.
  intros Hx. destruct (includes keys x) eqn:Hin; [|done].
  by apply includes_elem_of in Hin.
Qed.

(** The two sets of weapon names. *)
Lemma mage_weapons : Object_keys mageWeaponsMap = ["Hands"; "Scepter"].
Proof. reflexivity. Qed.

Lemma warrior_weapons : Object_keys warriorWeaponsMap = ["Hands"; "Axe"; "Sword"; "Hammer"].
Proof. reflexivity. Qed.

(** [getRandomType] returns a sub-type of the role asked for, and each of
    the two according to the number drawn. *)
Lemma getRandomType_Mage random :
  getRandomType random RoleMage = Fire \/ getRandomType random RoleMage = Ice.
Proof. unfold getRandomType. destruct (Qle_bool random (1 # 2)); auto. Qed.

Lemma getRandomType_Warrior random :
  getRandomType random RoleWarrior = Barbarian \/
  getRandomType random RoleWarrior = Paladin.
Proof. unfold getRandomType. destruct (Qle_bool random (1 # 2)); auto. Qed.

Example getRandomType_draws :
  getRandomType (3 # 4) RoleMage = Fire /\ getRandomType (1 # 2) RoleMage = Ice /\
  getRandomType (3 # 4) RoleWarrior = Barbarian /\ getRandomType 0 RoleWarrior = Paladin.
Proof. done. Qed.

(** C5. For every name, and whatever number is drawn, [createNewCharacter]
    with the weapon "Hammer", "Axe" or "Sword" returns a warrior of that
    name at level 1 whose weapon is "Sword" and whose sub-type is
    "Barbarian" or "Paladin". *)
Theorem createNewCharacter_warrior_weapons random name :
  Forall
    (fun weapon =>
       exists c,
         createNewCharacter random name weapon = Return (Warrior c "Sword") /\
         Factory.name c = name /\
         role c = RoleWarrior /\
         level c = 1%Z /\
         (type c = Barbarian \/ type c = Paladin))
    ["Hammer"; "Axe"; "Sword"].
Proof.
  repeat constructor;
    (eexists; split; [reflexivity|]; split_and!; [done..|];
     apply getRandomType_Warrior).
Qed.

(** C6. For every name, and whatever number is drawn, [createNewCharacter]
    with the weapon "Scepter" returns a mage of that name at level 1 with
    [usesScepter] true and whose sub-type is "Fire" or "Ice". *)
Theorem createNewCharacter_Scepter random name :
  exists c,
    createNewCharacter random name "Scepter" = Return (Mage c true) /\
    Factory.name c = name /\
    role c = RoleMage /\
    level c = 1%Z /\
    (type c = Fire \/ type c = Ice).
Proof.
  eexists. split; [reflexivity|]. split_and!; [done..|]. apply getRandomType_Mage.
Qed.

(** C7. "Hands" is a key of both weapon tables, and for every name, and
    whatever number is drawn, [createNewCharacter] with the weapon "Hands"
    returns a mage, not a warrior: the table of the mages is tested
    first. *)
Theorem createNewCharacter_Hands random name :
  includes (Object_keys mageWeaponsMap) "Hands" = true /\
  includes (Object_keys warriorWeaponsMap) "Hands" = true /\
  (exists c usesScepter,
     createNewCharacter random name "Hands" = Return (Mage c usesScepter) /\
     role c = RoleMage) /\
  (forall c weapon, createNewCharacter random name "Hands" <> Return (Warrior c weapon)).
Proof.
  split_and!; [done..| |done]. by eexists _, _.
Qed.

(** C8. For every name and every weapon that is neither "Hands" or
    "Scepter" nor "Hands", "Axe", "Sword" or "Hammer", and whatever number
    is drawn, [createNewCharacter] throws the error of the unsupported
    weapon, and so returns no character. *)
Theorem createNewCharacter_unsupported random name weapon :
  weapon ∉ ["Hands"; "Scepter"] ->
  weapon ∉ ["Hands"; "Axe"; "Sword"; "Hammer"] ->
  createNewCharacter random name weapon
    = Throw "This weapon is not available for standard characters!".
Proof.
  intros Hmage Hwarrior. unfold createNewCharacter.
  rewrite mage_weapons, warrior_weapons.
  by rewrite !includes_not_elem_of.
Qed.

Lemma createNewCharacter_unsupported_witness :
  ("Unknown" ∉ ["Hands"; "Scepter"]) /\
  ("Unknown" ∉ ["Hands"; "Axe"; "Sword"; "Hammer"]) /\
  createNewCharacter (3 # 4) "John" "Unknown"
    = Throw "This weapon is not available for standard characters!".
Proof.
  assert ("Unknown" ∉ ["Hands"; "Scepter"]) as Hmage.
  { apply (bool_decide_unpack _). vm_compute. exact I. }
  assert ("Unknown" ∉ ["Hands"; "Axe"; "Sword"; "Hammer"]) as Hwarrior.
  { apply (bool_decide_unpack _). vm_compute. exact I. }
  split_and!; [done..|].
  exact (createNewCharacter_unsupported (3 # 4) "John" "Unknown" Hmage Hwarrior).
Defined.

(** ** More on the factory *)

(** Closes a goal on the outcome for a weapon whose membership in the two
    tables is known. *)
Ltac sort_weapon H :=
  first
    [ tauto
    | exfalso; tauto
    | solve [destruct_or!; simplify_eq]
    | destruct H as (? & ? & ?); discriminate
    | destruct H as (? & ?); discriminate
    | by eexists _, _
    | by eexists ].

(** X11. [createNewCharacter] sorts every weapon string into one of three
    outcomes: it returns a mage exactly for "Hands" and "Scepter", a warrior
    exactly for "Axe", "Sword" and "Hammer", and throws exactly for every
    other string. *)
Theorem createNewCharacter_classifies random name weapon :
  (weapon ∈ ["Hands"; "Scepter"] <->
   exists c usesScepter, createNewCharacter random name weapon = Return (Mage c usesScepter)) /\
  (weapon ∈ ["Axe"; "Sword"; "Hammer"] <->
   exists c held, createNewCharacter random name weapon = Return (Warrior c held)) /\
  (weapon ∉ ["Hands"; "Scepter"; "Axe"; "Sword"; "Hammer"] <->
   exists msg, createNewCharacter random name weapon = Throw msg).
Proof.
  unfold createNewCharacter. rewrite mage_weapons, warrior_weapons.
  destruct (includes ["Hands"; "Scepter"] weapon) eqn:Hmage;
    [ apply includes_elem_of in Hmage
    | apply not_true_iff_false in Hmage; rewrite includes_elem_of in Hmage;
      destruct (includes ["Hands"; "Axe"; "Sword"; "Hammer"] weapon) eqn:Hwarrior;
      [ apply includes_elem_of in Hwarrior
      | apply not_true_iff_false in Hwarrior; rewrite includes_elem_of in Hwarrior ] ];
    rewrite ?elem_of_cons, ?elem_of_nil in Hmage;
    try rewrite ?elem_of_cons, ?elem_of_nil in Hwarrior;
    split_and!; split; intros H;
    rewrite ?elem_of_cons, ?elem_of_nil in H;
    rewrite ?elem_of_cons, ?elem_of_nil;
    sort_weapon H.
Qed.

(** X12. The weapon asked for only selects the role: two weapons that
    belong to the same tables give the same character, so the weapon itself
    is stored nowhere in it. *)
Theorem createNewCharacter_forgets_weapon random name weapon1 weapon2 :
  (weapon1 ∈ Object_keys mageWeaponsMap <-> weapon2 ∈ Object_keys mageWeaponsMap) ->
  (weapon1 ∈ Object_keys warriorWeaponsMap <-> weapon2 ∈ Object_keys warriorWeaponsMap) ->
  createNewCharacter random name weapon1 = createNewCharacter random name weapon2.
Proof.
  intros Hmage Hwarrior. unfold createNewCharacter.
  rewrite <-!includes_elem_of in Hmage, Hwarrior.
  destruct (includes (Object_keys mageWeaponsMap) weapon1),
    (includes (Object_keys mageWeaponsMap) weapon2),
    (includes (Object_keys warriorWeaponsMap) weapon1),
    (includes (Object_keys warriorWeaponsMap) weapon2); try done;
    intuition congruence.
Qed.

Lemma createNewCharacter_forgets_weapon_witness :
  ("Axe" ∈ Object_keys mageWeaponsMap <-> "Hammer" ∈ Object_keys mageWeaponsMap) /\
  ("Axe" ∈ Object_keys warriorWeaponsMap <-> "Hammer" ∈ Object_keys warriorWeaponsMap) /\
  createNewCharacter (1 # 4) "John" "Axe" = createNewCharacter (1 # 4) "John" "Hammer".
Proof.
  assert ("Axe" ∈ Object_keys mageWeaponsMap <-> "Hammer" ∈ Object_keys mageWeaponsMap)
    as Hmage.
  { apply (bool_decide_unpack _). vm_compute. exact I. }
  assert ("Axe" ∈ Object_keys warriorWeaponsMap
          <-> "Hammer" ∈ Object_keys warriorWeaponsMap) as Hwarrior.
  { apply (bool_decide_unpack _). vm_compute. exact I. }
  split_and!; [done..|].
  exact (createNewCharacter_forgets_weapon (1 # 4) "John" "Axe" "Hammer" Hmage Hwarrior).
Defined.

(** X13. [getRandomType] returns the first sub-type of the role, "Fire" or
    "Barbarian", exactly when the number drawn is greater than 0.5, and the
    second one, "Ice" or "Paladin", exactly when it is 0.5 or less. *)
Theorem getRandomType_threshold random :
  (getRandomType random RoleMage = Fire <-> (1 # 2 < random)%Q) /\
  (getRandomType random RoleMage = Ice <-> (random <= 1 # 2)%Q) /\
  (getRandomType random RoleWarrior = Barbarian <-> (1 # 2 < random)%Q) /\
  (getRandomType random RoleWarrior = Paladin <-> (random <= 1 # 2)%Q).
Proof.
  unfold getRandomType. destruct (Qle_bool random (1 # 2)) eqn:Hle; cbn.
  - apply Qle_bool_iff in Hle. pose proof (Qle_not_lt _ _ Hle).
    split_and!; split; done.
  - assert (~ (random <= 1 # 2)%Q) as Hnle.
    { intros H%Qle_bool_iff. congruence. }
    pose proof (Qnot_le_lt _ _ Hnle). split_and!; split; done.
Qed.

(** X14. A character the factory returns is at level 1 with the identifier
    of its name, sub-type and role, and its ability line never mentions the
    weapon asked for: a mage casts with the scepter, also when created for
    "Hands", and a warrior swings the sword. *)
Theorem createNewCharacter_ability random name weapon c :
  createNewCharacter random name weapon = Return c ->
  identifier (super c) =
    name +:+ " [Lvl 1 " +:+ CharacterType_to_string (type (super c)) +:+ " "
         +:+ Role_to_string (role (super c)) +:+ "]" /\
  useAbility c =
    identifier (super c) +:+
    match c with
    | Mage this _ =>
        match type this with
        | Fire => " casted a Fireball  with their scepter!"
        | _ => " casted an Iceball  with their scepter!"
        end
    | Warrior _ _ => " swings their Sword"
    end.
Proof.
  unfold createNewCharacter, getRandomType.
  destruct (includes _ weapon); [|destruct (includes _ weapon); [|done]];
    intros [= <-]; destruct (Qle_bool random (1 # 2));
    (split; vm_compute; reflexivity).
Qed.

Lemma createNewCharacter_ability_witness :
  createNewCharacter (3 # 4) "Alicia" "Hands"
    = Return (Mage (mkCharacter "Alicia" RoleMage 1 Fire "Alicia [Lvl 1 Fire Mage]") true) /\
  "Alicia [Lvl 1 Fire Mage]" = "Alicia" +:+ " [Lvl 1 " +:+ "Fire" +:+ " " +:+ "Mage" +:+ "]" /\
  useAbility (Mage (mkCharacter "Alicia" RoleMage 1 Fire "Alicia [Lvl 1 Fire Mage]") true)
    = "Alicia [Lvl 1 Fire Mage]" +:+ " casted a Fireball  with their scepter!".
Proof.
  split; [vm_compute; reflexivity|].
  apply (createNewCharacter_ability (3 # 4) "Alicia" "Hands"
           (Mage (mkCharacter "Alicia" RoleMage 1 Fire "Alicia [Lvl 1 Fire Mage]") true)).
  vm_compute. reflexivity.
Defined.

End FactoryProofs.
